(** * stdp_pl_synapse_hom_ax_delay: power-law STDP synapse with axonal delay

    A shallow embedding of [models/stdp_pl_synapse_hom_ax_delay.h] and the
    properties of its forward update ([send]) and of its retroactive
    correction ([adjust_weight]).

    Numbers.  The C++ [double] is modelled by the real numbers [R]: the
    arithmetic is exact, and rounding, overflow, infinities and NaN are
    outside the model.  The diagnostic [std::cout] lines of the source are
    not part of the model. *)

From Stdlib Require Import Reals Lra List ZArith String Sorted.
From stdpp Require Import base decidable option gmap strings.
Import ListNotations.

Open Scope R_scope.

(** ** Comparisons of doubles as decidable propositions *)

#[global] Instance Rlt_decision (x y : R) : Decision (x < y) := Rlt_dec x y.
#[global] Instance Rgt_decision (x y : R) : Decision (x > y) := Rgt_dec x y.
#[global] Instance Rle_decision (x y : R) : Decision (x <= y) := Rle_dec x y.
#[global] Instance Req_decision : EqDecision R := Req_dec_T.

(** ** cmath *)

Module std.

Definition exp (x : R) : R := Rtrigo_def.exp x.

(** [std::pow] on doubles.  For a positive base it is [exp (y * ln x)].
    [pow(x, 0)] is 1 for every [x], and [pow(0, y)] is 0 for [y > 0].  For a
    negative base and an integer exponent it is the integer power, so that
    [pow(-2, 1)] is -2 and [pow(-2, 2)] is 4.  Two cases have no counterpart
    in [R]: a zero base with a negative exponent, an infinity in C++, and a
    negative base with an exponent that is no integer, NaN in C++.  The
    model returns 0 in these two cases only, and the theorems that depend
    on the value of [pow] assume a non-negative base and a non-negative
    exponent. *)
Definition pow (x y : R) : R :=
  if decide (0 < x) then Rpower x y
  else if decide (y = 0) then 1.0
  else if decide (x = 0) then 0.0
  else if decide (IZR (up y - 1) = y) then powerRZ x (up y - 1)
  else 0.0.

End std.

(** ** Aborting computations

    [assert] of the C++ source aborts the run when its condition fails; the
    model is the build that keeps its assertions. *)

Inductive error : Type :=
| AssertionFailed
| BadProperty.

Inductive result (A : Type) : Type :=
| Ok (a : A)
| Abort (err : error).

Arguments Ok {A} a.
Arguments Abort {A} err.

#[global] Instance result_ret : MRet result := fun A a => Ok a.
#[global] Instance result_bind : MBind result := fun A B f m =>
  match m with
  | Ok a => f a
  | Abort err => Abort err
  end.

Definition assert (b : bool) : result unit :=
  if b then Ok tt else Abort AssertionFailed.

(** ** Data model *)

(** Data members common to all connections of the synapse type. *)
Record STDPPLHomAxDelayCommonProperties : Type := {
  tau_plus_ : R;
  tau_plus_inv_ : R;
  lambda_ : R;
  alpha_ : R;
  mu_ : R;
  axonal_delay_ : R
}.

(** The part of the base class [Connection< targetidentifierT >] that this
    file reads: [get_delay()], [get_delay_steps()] and [get_rport()]. *)
Record ConnectionBase : Type := {
  get_delay : R;
  get_delay_steps : Z;
  get_rport : Z
}.

(** Data members of each connection. *)
Record stdp_pl_synapse_hom_ax_delay : Type := {
  base : ConnectionBase;
  weight_ : R;
  Kplus_ : R;
  t_lastspike_ : R
}.

(** The default constructor. *)
Definition stdp_pl_synapse_hom_ax_delay_default (b : ConnectionBase)
  : stdp_pl_synapse_hom_ax_delay :=
  {| base := b; weight_ := 1.0; Kplus_ := 0.0; t_lastspike_ := 0.0 |}.

Definition set_weight (this : stdp_pl_synapse_hom_ax_delay) (w : R)
  : stdp_pl_synapse_hom_ax_delay :=
  {| base := base this; weight_ := w; Kplus_ := Kplus_ this;
     t_lastspike_ := t_lastspike_ this |}.

(** Modelled from the spec: an entry of the postsynaptic spike history,
    declared outside this file, with its spike time, its trace value and
    its reference count.  The synapse reads the spike time [t_] only. *)
Record histentry : Type := {
  t_ : R;
  Kminus_ : R;
  access_counter_ : nat
}.

(** Modelled from the spec: the correction ticket, declared in
    [adjustentry.h].  The fields have the names under which [adjust_weight]
    reads them and the order of the constructor call in [send]. *)
Module adjustentry.

Record t : Type := mk {
  t_lastspike_ : R;
  old_weight_ : R;
  t_received_ : R;
  tid_ : Z;
  syn_id_ : Z;
  lcid_ : Z
}.

Definition set_old_weight (a : t) (w : R) : t :=
  mk (t_lastspike_ a) w (t_received_ a) (tid_ a) (syn_id_ a) (lcid_ a).

End adjustentry.

Record SpikeData : Type := {
  get_tid : Z;
  get_syn_id : Z;
  get_lcid : Z
}.

(** The presynaptic spike event handed to [send]: its time stamp in ms and
    the routing data of the sender. *)
Record Event : Type := {
  get_stamp_ms : R;
  get_sender_spike_data : SpikeData
}.

(** What [e()] delivers to the receiver: the fields the synapse sets on the
    event, and the time stamp of the event. *)
Record Delivered : Type := {
  ev_weight : R;
  ev_delay_steps : Z;
  ev_rport : Z;
  ev_stamp_ms : R
}.

(** Modelled from the spec: the target node, as far as the synapse uses it,
    is the ordered history of its spikes and its postsynaptic trace as a
    function of time. *)
Record Node : Type := {
  history_ : list histentry;
  K_value : R -> R
}.

(** Modelled from the spec: [Node::get_history], whose code is not in this
    file.  It yields, in the order of the history, the postsynaptic spikes
    whose time lies in the window that is open at [t1] and closed at [t2]. *)
Definition get_history (target : Node) (t1 t2 : R) : list histentry :=
  List.filter (fun h => bool_decide (t1 < t_ h) && bool_decide (t_ h <= t2))
         (history_ target).

(** Modelled from the spec: [Node::get_K_value], the decayed postsynaptic
    trace at time [t]. *)
Definition get_K_value (target : Node) (t : R) : R := K_value target t.

(** ** The plasticity rule *)

Definition facilitate_ (w kplus : R) (cp : STDPPLHomAxDelayCommonProperties) : R :=
  w + (lambda_ cp * std.pow w (mu_ cp) * kplus).

Definition depress_ (w kminus : R) (cp : STDPPLHomAxDelayCommonProperties) : R :=
  let new_w := w - (lambda_ cp * alpha_ cp * w * kminus) in
  if decide (new_w > 0.0) then new_w else 0.0.

(** The effects of one [send] besides the new state of the synapse: the
    event delivered and the entry handed to [add_synapse_to_check], if any. *)
Record SendEffects : Type := {
  delivered : Delivered;
  synapse_to_check : option adjustentry.t
}.

(** The effects of one [adjust_weight]: the entry as updated in place and
    the correction event delivered. *)
Record AdjustEffects : Type := {
  adjusted_entry : adjustentry.t;
  correction : Delivered
}.

Section Synapse.

(** [kernel().connection_manager.get_stdp_eps()] *)
Variable stdp_eps : R.

(** The loop of [send] over the history entries from [start] to [finish]:
    each round asserts causality and then facilitates [weight_] in place. *)
Fixpoint facilitation_loop (cp : STDPPLHomAxDelayCommonProperties)
    (dendritic_delay : R) (entries : list histentry)
    (this : stdp_pl_synapse_hom_ax_delay) : result stdp_pl_synapse_hom_ax_delay :=
  match entries with
  | [] => mret this
  | start :: rest =>
      let minus_dt :=
        t_lastspike_ this + axonal_delay_ cp - (t_ start + dendritic_delay) in
      _ ← assert (bool_decide (minus_dt < -1.0 * stdp_eps));
      facilitation_loop cp dendritic_delay rest
        (set_weight this
           (facilitate_ (weight_ this)
              (Kplus_ this * std.exp (minus_dt * tau_plus_inv_ cp)) cp))
  end.

Definition send (this : stdp_pl_synapse_hom_ax_delay) (e : Event) (target : Node)
    (cp : STDPPLHomAxDelayCommonProperties)
  : result (stdp_pl_synapse_hom_ax_delay * SendEffects) :=
  let t_spike := get_stamp_ms e in
  let dendritic_delay := get_delay (base this) - axonal_delay_ cp in
  let entries :=
    get_history target
      (t_lastspike_ this - dendritic_delay + axonal_delay_ cp)
      (t_spike - dendritic_delay + axonal_delay_ cp) in
  this1 ← facilitation_loop cp dendritic_delay entries this;
  let old_weight := weight_ this1 in
  let K_minus := get_K_value target (t_spike + axonal_delay_ cp - dendritic_delay) in
  let this2 := set_weight this1 (depress_ (weight_ this1) K_minus cp) in
  let ev :=
    {| ev_weight := weight_ this2;
       ev_delay_steps := get_delay_steps (base this2);
       ev_rport := get_rport (base this2);
       ev_stamp_ms := get_stamp_ms e |} in
  let to_check :=
    if decide (axonal_delay_ cp > dendritic_delay) then
      let sender_spike_data_ := get_sender_spike_data e in
      Some (adjustentry.mk (t_lastspike_ this2) old_weight
              (t_spike + axonal_delay_ cp - dendritic_delay)
              (get_tid sender_spike_data_)
              (get_syn_id sender_spike_data_)
              (get_lcid sender_spike_data_))
    else None in
  mret ({| base := base this2;
           weight_ := weight_ this2;
           Kplus_ :=
             Kplus_ this2
             * std.exp ((t_lastspike_ this2 - t_spike) * tau_plus_inv_ cp) + 1.0;
           t_lastspike_ := t_spike |},
        {| delivered := ev; synapse_to_check := to_check |}).

Definition adjust_weight (this : stdp_pl_synapse_hom_ax_delay)
    (a : adjustentry.t) (missing_spike : R) (target : Node)
    (cp : STDPPLHomAxDelayCommonProperties)
  : result (stdp_pl_synapse_hom_ax_delay * AdjustEffects) :=
  let ori_weight_ := weight_ this in
  let this1 := set_weight this (adjustentry.old_weight_ a) in
  let dendritic_delay := get_delay (base this1) - axonal_delay_ cp in
  let t_spike := adjustentry.t_received_ a - axonal_delay_ cp + dendritic_delay in
  (* the history is read for the access count only; the entries are not used *)
  let _found := get_history target (missing_spike - 1e-3) (missing_spike + 1e-3) in
  let minus_dt :=
    adjustentry.t_lastspike_ a + axonal_delay_ cp
    - (missing_spike + dendritic_delay) in
  _ ← assert (bool_decide (minus_dt < -1.0 * stdp_eps));
  let Kplus_corr :=
    (Kplus_ this1 - 1.0)
    / std.exp ((adjustentry.t_lastspike_ a - t_spike) / tau_plus_ cp) in
  let this2 :=
    set_weight this1
      (facilitate_ (weight_ this1)
         (Kplus_corr * std.exp (minus_dt / tau_plus_ cp)) cp) in
  let a1 := adjustentry.set_old_weight a (weight_ this2) in
  let K_minus := get_K_value target (t_spike + axonal_delay_ cp - dendritic_delay) in
  let this3 := set_weight this2 (depress_ (weight_ this2) K_minus cp) in
  let ev :=
    {| ev_weight := weight_ this3 - ori_weight_;
       ev_delay_steps := get_delay_steps (base this3);
       ev_rport := get_rport (base this3);
       ev_stamp_ms := t_spike |} in
  mret (this3, {| adjusted_entry := a1; correction := ev |}).

End Synapse.

(** The condition asserted before each facilitation: the postsynaptic spike
    at [t_post], seen through the dendritic delay, comes later than the
    last presynaptic spike, seen through the axonal delay, by more than
    [stdp_eps]. *)
Definition causal (stdp_eps : R) (cp : STDPPLHomAxDelayCommonProperties)
    (dendritic_delay t_lastspike t_post : R) : Prop :=
  t_lastspike + axonal_delay_ cp - (t_post + dendritic_delay) < -1.0 * stdp_eps.

(** ** Spike trains

    A presynaptic spike train is delivered to the synapse one event at a
    time; each event comes with the target as it is when the event is
    delivered.  The run records the state of the synapse and the effects
    after each [send], and stops at the first failed assertion. *)

Section Train.

Variable stdp_eps : R.

Fixpoint send_train (this : stdp_pl_synapse_hom_ax_delay)
    (train : list (Event * Node)) (cp : STDPPLHomAxDelayCommonProperties)
  : result (list (stdp_pl_synapse_hom_ax_delay * SendEffects)) :=
  match train with
  | [] => mret []
  | (e, target) :: rest =>
      r ← send stdp_eps this e target cp;
      rs ← send_train (fst r) rest cp;
      mret (r :: rs)
  end.

End Train.

(** The weights after each forward update of a run. *)
Definition weights (run : list (stdp_pl_synapse_hom_ax_delay * SendEffects)) : list R :=
  map (fun r => weight_ (fst r)) run.

(** The entries a run has handed to the target, oldest first. *)
Definition synapses_to_check (run : list (stdp_pl_synapse_hom_ax_delay * SendEffects))
  : list adjustentry.t :=
  omap (fun r => synapse_to_check (snd r)) run.

(** The windows that the forward updates of a train query, one after the
    other, hold no postsynaptic spike: the facilitation loop never runs.
    The window of an update starts from the time of the presynaptic spike
    before it. *)
Fixpoint silent_windows (delay : R) (cp : STDPPLHomAxDelayCommonProperties)
    (t_lastspike : R) (train : list (Event * Node)) : Prop :=
  match train with
  | [] => True
  | (e, target) :: rest =>
      let dendritic_delay := delay - axonal_delay_ cp in
      get_history target
        (t_lastspike - dendritic_delay + axonal_delay_ cp)
        (get_stamp_ms e - dendritic_delay + axonal_delay_ cp) = []
      /\ silent_windows delay cp (get_stamp_ms e) rest
  end.

(** The weights of a train of depressions alone. *)
Fixpoint depressions (delay : R) (cp : STDPPLHomAxDelayCommonProperties)
    (w : R) (train : list (Event * Node)) : list R :=
  match train with
  | [] => []
  | (e, target) :: rest =>
      let dendritic_delay := delay - axonal_delay_ cp in
      let w' :=
        depress_ w
          (get_K_value target (get_stamp_ms e + axonal_delay_ cp - dendritic_delay))
          cp in
      w' :: depressions delay cp w' rest
  end.

(** ** The forward update as the specification words it

    The steps of the forward update on the triple of weight, presynaptic
    trace and time of the last presynaptic spike, with a division by
    [tau_plus] where the code multiplies by the cached reciprocal, and with
    the clamp written as a maximum. *)

Module Spec.

Definition facilitate (cp : STDPPLHomAxDelayCommonProperties)
    (dendritic_delay trace_pre t_last_spike weight t_post : R) : R :=
  let minus_dt := t_last_spike + axonal_delay_ cp - (t_post + dendritic_delay) in
  weight
  + lambda_ cp * std.pow weight (mu_ cp) * trace_pre
    * std.exp (minus_dt / tau_plus_ cp).

Definition depress (cp : STDPPLHomAxDelayCommonProperties) (weight K_minus : R) : R :=
  Rmax 0 (weight - lambda_ cp * alpha_ cp * weight * K_minus).

Definition forward_update (cp : STDPPLHomAxDelayCommonProperties)
    (total_delay : R) (target : Node) (t_spike : R)
    (state : R * R * R) : R * R * R :=
  let '(weight, trace_pre, t_last_spike) := state in
  let dendritic_delay := total_delay - axonal_delay_ cp in
  let spikes :=
    get_history target
      (t_last_spike - dendritic_delay + axonal_delay_ cp)
      (t_spike - dendritic_delay + axonal_delay_ cp) in
  let facilitated :=
    fold_left (facilitate cp dendritic_delay trace_pre t_last_spike)
              (map t_ spikes) weight in
  let K_minus := get_K_value target (t_spike + axonal_delay_ cp - dendritic_delay) in
  (depress cp facilitated K_minus,
   trace_pre * std.exp ((t_last_spike - t_spike) / tau_plus_ cp) + 1.0,
   t_spike).

End Spec.

(** ** Status dictionaries *)

(** Modelled from the spec: the generic property container of the
    configuration surface ([DictionaryDatum], [def] and [updateValue] are
    not in this file), a finite map from names to typed values. *)
Inductive Token : Type :=
| DoubleDatum (x : R)
| IntegerDatum (n : Z).

Module names.

Definition weight : string := "weight".
Definition Kplus : string := "Kplus".
Definition size_of : string := "size_of".
Definition tau_plus : string := "tau_plus".
Definition lambda : string := "lambda".
Definition alpha : string := "alpha".
Definition mu : string := "mu".
Definition axonal_delay : string := "axonal_delay".

End names.

(** Modelled from the spec: [def< double >] and [def< long >] store a value
    under a name, replacing what was there. *)
Definition def_double (d : gmap string Token) (n : string) (x : R) : gmap string Token :=
  <[n := DoubleDatum x]> d.

Definition def_long (d : gmap string Token) (n : string) (k : Z) : gmap string Token :=
  <[n := IntegerDatum k]> d.

(** Modelled from the spec: [updateValue< double >] replaces the value by
    the double stored under the name, and leaves it as it is when the name
    is absent.  A value of another type under the name is outside the
    model; the theorems speak of dictionaries that hold doubles there. *)
Definition updateValue_double (d : gmap string Token) (n : string) (value : R) : R :=
  match d !! n with
  | Some (DoubleDatum x) => x
  | _ => value
  end.

Section Status.

(** [sizeof( *this )] *)
Variable sizeof_this : Z.

(** [ConnectionBase::get_status] and [ConnectionBase::set_status], defined
    with the connection base and not in this file. *)
Variable ConnectionBase_get_status : ConnectionBase -> gmap string Token -> gmap string Token.
Variable ConnectionBase_set_status : gmap string Token -> ConnectionBase -> result ConnectionBase.

Definition get_status (this : stdp_pl_synapse_hom_ax_delay) (d : gmap string Token)
  : gmap string Token :=
  let d1 := ConnectionBase_get_status (base this) d in
  let d2 := def_double d1 names.weight (weight_ this) in
  let d3 := def_double d2 names.Kplus (Kplus_ this) in
  def_long d3 names.size_of sizeof_this.

Definition set_status (this : stdp_pl_synapse_hom_ax_delay) (d : gmap string Token)
  : result stdp_pl_synapse_hom_ax_delay :=
  b ← ConnectionBase_set_status d (base this);
  let weight := updateValue_double d names.weight (weight_ this) in
  let Kplus := updateValue_double d names.Kplus (Kplus_ this) in
  mret {| base := b; weight_ := weight; Kplus_ := Kplus;
          t_lastspike_ := t_lastspike_ this |}.

End Status.

(** Modelled from the spec: [STDPPLHomAxDelayCommonProperties::set_status]
    is declared in this file and defined elsewhere.  The specification has
    it read [tau_plus], [lambda], [alpha], [mu] and [axonal_delay] from the
    dictionary, cache the reciprocal of [tau_plus], and reject an axonal
    delay that exceeds the total delay of the connection as a configuration
    error. *)
Definition common_set_status (cp : STDPPLHomAxDelayCommonProperties)
    (d : gmap string Token) (total_delay : R)
  : result STDPPLHomAxDelayCommonProperties :=
  let tau_plus := updateValue_double d names.tau_plus (tau_plus_ cp) in
  let lambda := updateValue_double d names.lambda (lambda_ cp) in
  let alpha := updateValue_double d names.alpha (alpha_ cp) in
  let mu := updateValue_double d names.mu (mu_ cp) in
  let axonal_delay := updateValue_double d names.axonal_delay (axonal_delay_ cp) in
  if decide (axonal_delay > total_delay) then Abort BadProperty
  else
    mret {| tau_plus_ := tau_plus; tau_plus_inv_ := 1.0 / tau_plus;
            lambda_ := lambda; alpha_ := alpha; mu_ := mu;
            axonal_delay_ := axonal_delay |}.

(** ** Concrete configurations

    The parameters of the scenarios of the specification: the time constant
    is 20 ms, the learning rate 0.01, the asymmetry 1.05 and the exponent
    0.4. *)

Definition cp_scenario (axonal_delay : R) : STDPPLHomAxDelayCommonProperties :=
  {| tau_plus_ := 20.0; tau_plus_inv_ := 1.0 / 20.0; lambda_ := 0.01;
     alpha_ := 1.05; mu_ := 0.4; axonal_delay_ := axonal_delay |}.

Definition base_scenario (delay : R) : ConnectionBase :=
  {| get_delay := delay; get_delay_steps := 10; get_rport := 0 |}.

Definition event_at (t : R) : Event :=
  {| get_stamp_ms := t;
     get_sender_spike_data := {| get_tid := 0; get_syn_id := 0; get_lcid := 0 |} |}.

Definition spike_at (t : R) : histentry :=
  {| t_ := t; Kminus_ := 0.0; access_counter_ := 0 |}.

(** A target that has never fired: no history, and a trace that is zero. *)
Definition silent_target : Node :=
  {| history_ := []; K_value := fun _ => 0.0 |}.

(** A target with the given spikes and a constant trace value. *)
Definition target_with (spikes : list R) (k : R) : Node :=
  {| history_ := map spike_at spikes; K_value := fun _ => k |}.

(** A connection base for the examples: its status is its delay, and it
    accepts every dictionary. *)
Definition base_get_status_example (b : ConnectionBase) (d : gmap string Token)
  : gmap string Token :=
  <["delay" := DoubleDatum (get_delay b)]> d.

Definition base_set_status_example (d : gmap string Token) (b : ConnectionBase)
  : result ConnectionBase :=
  Ok b.

(** ** Registration with the target, and runs of corrections *)

(** [check_connection]: after the check of the connection base, whose code
    is outside this file and whose outcome is taken as given, the synapse
    registers with the target.  The result is the pair of arguments handed
    to [register_stdp_connection]. *)
Definition check_connection (this : stdp_pl_synapse_hom_ax_delay)
    (check_connection_ : result unit) : result (R * R) :=
  _ ← check_connection_;
  mret (t_lastspike_ this - get_delay (base this), get_delay (base this)).


(** The state of the synapse at the end of a run of forward updates. *)
Definition final_state (this : stdp_pl_synapse_hom_ax_delay)
    (run : list (stdp_pl_synapse_hom_ax_delay * SendEffects))
  : stdp_pl_synapse_hom_ax_delay :=
  List.last (map fst run) this.

Definition sum_list (l : list R) : R := fold_right Rplus 0 l.

Definition prod_list (l : list R) : R := fold_right Rmult 1 l.

(** * Properties *)

(** ** Facts about the arithmetic *)

Lemma pow_nonneg (x y : R) : 0 <= x -> 0 <= y -> 0 <= std.pow x y.
Proof.
  intros Hx0 _. unfold std.pow.
  destruct (decide (0 < x)) as [Hx | Hx].
  - left. unfold Rpower. apply exp_pos.
  - destruct (decide (y = 0)); [lra |].
    destruct (decide (x = 0)); lra.
Qed.

(** At a negative base the model has the integer powers of [std::pow]. *)
Lemma pow_negative_base (x : R) (n : Z) :
  x < 0 -> std.pow x (IZR n) = powerRZ x n.
Proof.
  intros Hx. unfold std.pow.
  destruct (decide (0 < x)) as [Hpos | _]; [lra |].
  assert (Hup : (up (IZR n) - 1)%Z = n).
  { rewrite <- (up_tech (IZR n) n); [ring | lra |].
    rewrite plus_IZR. lra. }
  destruct (decide (IZR n = 0)) as [Hn0 | Hn0].
  - apply eq_IZR in Hn0. subst n. simpl. lra.
  - destruct (decide (x = 0)) as [Hx0 | _]; [lra |].
    rewrite Hup.
    destruct (decide (IZR n = IZR n)) as [_ | Hne]; [reflexivity | contradiction].
Qed.

(** On a negative weight a facilitation can lower the weight: with the
    exponent 1 and the learning rate 0.5, the weight -2 and the trace 1 give
    -3. *)
Example facilitate_negative_weight :
  facilitate_ (-2) 1
    {| tau_plus_ := 20.0; tau_plus_inv_ := 1.0 / 20.0; lambda_ := 0.5;
       alpha_ := 1.05; mu_ := 1; axonal_delay_ := 0.0 |}
  = -3.
Proof.
  unfold facilitate_. simpl.
  rewrite (pow_negative_base (-2) 1) by lra.
  simpl. lra.
Qed.


Lemma depress_nonneg (w kminus : R) (cp : STDPPLHomAxDelayCommonProperties) :
  0 <= depress_ w kminus cp.
Proof.
  unfold depress_. cbv zeta.
  destruct (decide (_ > 0.0)); lra.
Qed.

Lemma depress_max (w kminus : R) (cp : STDPPLHomAxDelayCommonProperties) :
  depress_ w kminus cp = Spec.depress cp w kminus.
Proof.
  unfold depress_, Spec.depress. cbv zeta.
  destruct (decide (_ > 0.0)) as [H | H].
  - rewrite Rmax_right; lra.
  - rewrite Rmax_left; lra.
Qed.

Lemma facilitate_ge (w kplus : R) (cp : STDPPLHomAxDelayCommonProperties) :
  0 <= lambda_ cp -> 0 <= mu_ cp -> 0 <= w -> 0 <= kplus ->
  w <= facilitate_ w kplus cp.
Proof.
  intros Hl Hmu Hw Hk. unfold facilitate_.
  pose proof (pow_nonneg w (mu_ cp) Hw Hmu) as Hp.
  assert (0 <= lambda_ cp * std.pow w (mu_ cp) * kplus).
  { apply Rmult_le_pos; [apply Rmult_le_pos|]; assumption. }
  lra.
Qed.

(** ** Facts about the error monad *)

Lemma bind_Ok {A B : Type} (m : result A) (f : A -> result B) (b : B) :
  m ≫= f = Ok b -> exists a, m = Ok a /\ f a = Ok b.
Proof.
  destruct m as [a | err]; simpl; intros H.
  - exists a. split; [reflexivity | exact H].
  - discriminate.
Qed.

Lemma assert_Ok (b : bool) (u : unit) : assert b = Ok u -> b = true.
Proof.
  destruct b; [reflexivity | discriminate].
Qed.

Lemma assert_true (P : Prop) `{Decision P} : P -> assert (bool_decide P) = Ok tt.
Proof.
  intros HP. rewrite bool_decide_eq_true_2; [reflexivity | exact HP].
Qed.

Lemma assert_false (P : Prop) `{Decision P} :
  ~ P -> assert (bool_decide P) = Abort AssertionFailed.
Proof.
  intros HP. rewrite bool_decide_eq_false_2; [reflexivity | exact HP].
Qed.

(** ** The facilitation loop *)

Section LoopFacts.

Variable stdp_eps : R.
Variable cp : STDPPLHomAxDelayCommonProperties.
Variable dendritic_delay : R.

Lemma facilitation_loop_frame (entries : list histentry) :
  forall this this1,
    facilitation_loop stdp_eps cp dendritic_delay entries this = Ok this1 ->
    base this1 = base this /\ Kplus_ this1 = Kplus_ this
    /\ t_lastspike_ this1 = t_lastspike_ this.
Proof.
  induction entries as [| start rest IH]; intros this this1 H; simpl in H.
  - injection H as <-. auto.
  - apply bind_Ok in H as [[] [_ H]].
    apply IH in H. simpl in H. exact H.
Qed.

Lemma facilitation_loop_total (entries : list histentry) :
  forall this,
    Forall (fun h => causal stdp_eps cp dendritic_delay (t_lastspike_ this) (t_ h))
           entries ->
    exists this1, facilitation_loop stdp_eps cp dendritic_delay entries this = Ok this1.
Proof.
  induction entries as [| start rest IH]; intros this Hall; simpl.
  - eexists. reflexivity.
  - inversion Hall as [| ? ? Hstart Hrest]; subst.
    unfold causal in Hstart.
    rewrite (assert_true _ Hstart). simpl.
    apply IH. simpl. exact Hrest.
Qed.

Lemma facilitation_loop_abort (entries : list histentry) :
  forall this,
    Exists (fun h => ~ causal stdp_eps cp dendritic_delay (t_lastspike_ this) (t_ h))
           entries ->
    facilitation_loop stdp_eps cp dendritic_delay entries this = Abort AssertionFailed.
Proof.
  induction entries as [| start rest IH]; intros this Hex; simpl.
  - inversion Hex.
  - destruct (decide (causal stdp_eps cp dendritic_delay (t_lastspike_ this) (t_ start)))
      as [Hc | Hc]; unfold causal in Hc.
    + rewrite (assert_true _ Hc). simpl.
      apply IH. simpl.
      inversion Hex as [? ? Hbad | ? ? Hbad]; subst; [| exact Hbad].
      unfold causal in Hbad. contradiction.
    + rewrite (assert_false _ Hc). reflexivity.
Qed.

Lemma facilitation_loop_causal (entries : list histentry) :
  forall this this1,
    facilitation_loop stdp_eps cp dendritic_delay entries this = Ok this1 ->
    Forall (fun h => causal stdp_eps cp dendritic_delay (t_lastspike_ this) (t_ h))
           entries.
Proof.
  induction entries as [| start rest IH]; intros this this1 H; simpl in H.
  - constructor.
  - apply bind_Ok in H as [[] [Hassert H]].
    apply assert_Ok, bool_decide_eq_true_1 in Hassert.
    constructor; [exact Hassert |].
    apply IH in H. simpl in H. exact H.
Qed.



(** With the cached reciprocal in place, the loop computes the fold of the
    facilitation step of the specification over the spike times. *)
Lemma facilitation_loop_weight (entries : list histentry) :
  tau_plus_inv_ cp = 1.0 / tau_plus_ cp ->
  forall this this1,
    facilitation_loop stdp_eps cp dendritic_delay entries this = Ok this1 ->
    weight_ this1
    = fold_left
        (Spec.facilitate cp dendritic_delay (Kplus_ this) (t_lastspike_ this))
        (map t_ entries) (weight_ this).
Proof.
  intros Hinv.
  induction entries as [| start rest IH]; intros this this1 H; simpl in H.
  - injection H as <-. reflexivity.
  - apply bind_Ok in H as [[] [_ H]].
    apply IH in H. simpl in H. rewrite H. simpl.
    f_equal. unfold facilitate_, Spec.facilitate. cbv zeta.
    rewrite Hinv.
    replace (1.0 / tau_plus_ cp) with (/ tau_plus_ cp) by lra.
    unfold Rdiv. ring.
Qed.

End LoopFacts.

(** ** One forward update, taken apart *)

Section SendFacts.

Variable stdp_eps : R.

(** What a forward update that returns has done, in terms of the state the
    facilitation loop has left. *)
Lemma send_inv (this : stdp_pl_synapse_hom_ax_delay) (e : Event) (target : Node)
    (cp : STDPPLHomAxDelayCommonProperties)
    (this' : stdp_pl_synapse_hom_ax_delay) (eff : SendEffects) :
  send stdp_eps this e target cp = Ok (this', eff) ->
  let dendritic_delay := get_delay (base this) - axonal_delay_ cp in
  let t_spike := get_stamp_ms e in
  exists this1,
    facilitation_loop stdp_eps cp dendritic_delay
      (get_history target
         (t_lastspike_ this - dendritic_delay + axonal_delay_ cp)
         (t_spike - dendritic_delay + axonal_delay_ cp)) this = Ok this1
    /\ base this' = base this
    /\ weight_ this'
       = depress_ (weight_ this1)
           (get_K_value target (t_spike + axonal_delay_ cp - dendritic_delay)) cp
    /\ Kplus_ this'
       = Kplus_ this * std.exp ((t_lastspike_ this - t_spike) * tau_plus_inv_ cp) + 1.0
    /\ t_lastspike_ this' = t_spike
    /\ delivered eff
       = {| ev_weight := weight_ this';
            ev_delay_steps := get_delay_steps (base this);
            ev_rport := get_rport (base this);
            ev_stamp_ms := t_spike |}
    /\ synapse_to_check eff
       = if decide (axonal_delay_ cp > dendritic_delay) then
           Some (adjustentry.mk (t_lastspike_ this) (weight_ this1)
                   (t_spike + axonal_delay_ cp - dendritic_delay)
                   (get_tid (get_sender_spike_data e))
                   (get_syn_id (get_sender_spike_data e))
                   (get_lcid (get_sender_spike_data e)))
         else None.
Proof.
  intros H. cbv zeta. unfold send in H. cbv zeta in H.
  apply bind_Ok in H as [this1 [Hloop H]].
  exists this1. split; [exact Hloop |].
  apply facilitation_loop_frame in Hloop as (Hb & Hk & Ht).
  injection H as <- <-. simpl. rewrite Hb, Hk, Ht.
  repeat split; reflexivity.
Qed.

Lemma send_total (this : stdp_pl_synapse_hom_ax_delay) (e : Event) (target : Node)
    (cp : STDPPLHomAxDelayCommonProperties) :
  let dendritic_delay := get_delay (base this) - axonal_delay_ cp in
  Forall (fun h => causal stdp_eps cp dendritic_delay (t_lastspike_ this) (t_ h))
    (get_history target
       (t_lastspike_ this - dendritic_delay + axonal_delay_ cp)
       (get_stamp_ms e - dendritic_delay + axonal_delay_ cp)) ->
  exists r, send stdp_eps this e target cp = Ok r.
Proof.
  cbv zeta. intros Hall.
  apply facilitation_loop_total in Hall as [this1 Hloop].
  unfold send. cbv zeta. rewrite Hloop. simpl. eexists. reflexivity.
Qed.

Lemma send_abort (this : stdp_pl_synapse_hom_ax_delay) (e : Event) (target : Node)
    (cp : STDPPLHomAxDelayCommonProperties) :
  let dendritic_delay := get_delay (base this) - axonal_delay_ cp in
  Exists (fun h => ~ causal stdp_eps cp dendritic_delay (t_lastspike_ this) (t_ h))
    (get_history target
       (t_lastspike_ this - dendritic_delay + axonal_delay_ cp)
       (get_stamp_ms e - dendritic_delay + axonal_delay_ cp)) ->
  send stdp_eps this e target cp = Abort AssertionFailed.
Proof.
  cbv zeta. intros Hex.
  apply facilitation_loop_abort in Hex.
  unfold send. cbv zeta. rewrite Hex. reflexivity.
Qed.

End SendFacts.

(** ** The forward update *)

(** Evaluation of a comparison of two real constants. *)
Ltac decide_reals :=
  repeat match goal with
  | |- context [bool_decide ?P] =>
      first [ rewrite (bool_decide_eq_true_2 P) by (simpl; lra)
            | rewrite (bool_decide_eq_false_2 P) by (simpl; lra) ]
  | |- context [decide ?P] =>
      let H := fresh in destruct (decide P) as [H | H]; [| exfalso; simpl in H; lra]
  | |- context [decide ?P] =>
      let H := fresh in destruct (decide P) as [H | H]; [exfalso; simpl in H; lra |]
  end.

(** The spikes of a window come in the order of the history: from a history
    in increasing time order they come in increasing time order. *)
Lemma get_history_sorted (target : Node) (t1 t2 : R) :
  StronglySorted Rlt (map t_ (history_ target)) ->
  StronglySorted Rlt (map t_ (get_history target t1 t2)).
Proof.
  unfold get_history.
  induction (history_ target) as [| h rest IH]; intros Hs; simpl.
  - constructor.
  - simpl in Hs. inversion Hs as [| ? ? Hrest Hall]; subst.
    destruct (bool_decide (t1 < t_ h) && bool_decide (t_ h <= t2)); simpl.
    + constructor; [apply IH; exact Hrest |].
      rewrite List.Forall_forall in *. intros x Hx.
      apply Hall. rewrite in_map_iff in *.
      destruct Hx as (h' & <- & Hin). exists h'. split; [reflexivity |].
      apply List.filter_In in Hin. tauto.
    + apply IH. exact Hrest.
Qed.

(** C2: with the cached reciprocal of [tau_plus] in place and every spike
    of the queried window passing the causality assertion, [send] returns,
    and the weight, the presynaptic trace and the time of the last spike it
    leaves are those of the forward update of the specification: the
    history is queried over the window from
    [t_last_spike - dendritic_delay + axonal_delay], excluded, to
    [t_spike - dendritic_delay + axonal_delay], included; each returned
    spike facilitates once, in the order of the history; the depression
    uses the trace at [t_spike + axonal_delay - dendritic_delay] and clamps
    at zero; the trace decays and gains one; the last spike time becomes
    [t_spike].  The returned spikes are in increasing time order when the
    history is. *)
Theorem send_forward_update (stdp_eps : R) (this : stdp_pl_synapse_hom_ax_delay)
    (e : Event) (target : Node) (cp : STDPPLHomAxDelayCommonProperties) :
  tau_plus_inv_ cp = 1.0 / tau_plus_ cp ->
  Forall
    (fun h =>
       causal stdp_eps cp (get_delay (base this) - axonal_delay_ cp)
         (t_lastspike_ this) (t_ h))
    (get_history target
       (t_lastspike_ this - (get_delay (base this) - axonal_delay_ cp)
        + axonal_delay_ cp)
       (get_stamp_ms e - (get_delay (base this) - axonal_delay_ cp)
        + axonal_delay_ cp)) ->
  exists this' eff,
    send stdp_eps this e target cp = Ok (this', eff)
    /\ (weight_ this', Kplus_ this', t_lastspike_ this')
       = Spec.forward_update cp (get_delay (base this)) target (get_stamp_ms e)
           (weight_ this, Kplus_ this, t_lastspike_ this)
    /\ ev_weight (delivered eff) = weight_ this'
    /\ (StronglySorted Rlt (map t_ (history_ target)) ->
        StronglySorted Rlt
          (map t_
             (get_history target
                (t_lastspike_ this - (get_delay (base this) - axonal_delay_ cp)
                 + axonal_delay_ cp)
                (get_stamp_ms e - (get_delay (base this) - axonal_delay_ cp)
                 + axonal_delay_ cp)))).
Proof.
  intros Hinv Hall.
  destruct (send_total stdp_eps this e target cp Hall) as [[this' eff] Hsend].
  exists this', eff. split; [exact Hsend |].
  apply send_inv in Hsend. cbv zeta in Hsend.
  destruct Hsend as (this1 & Hloop & _ & Hw & Hk & Ht & Hev & _).
  apply (facilitation_loop_weight _ _ _ _ Hinv) in Hloop.
  split; [| split].
  - unfold Spec.forward_update. cbv zeta.
    rewrite Hw, Hk, Ht, Hloop, depress_max, Hinv.
    repeat f_equal. lra.
  - rewrite Hev. reflexivity.
  - apply get_history_sorted.
Qed.

Lemma send_forward_update_witness :
  exists this' eff,
    send 1e-6
      {| base := base_scenario 1.0; weight_ := 1.0; Kplus_ := 1.0;
         t_lastspike_ := 10.0 |}
      (event_at 20.0) (target_with [15.0] 0.5) (cp_scenario 0.0)
    = Ok (this', eff)
    /\ (weight_ this', Kplus_ this', t_lastspike_ this')
       = Spec.forward_update (cp_scenario 0.0) 1.0 (target_with [15.0] 0.5) 20.0
           (1.0, 1.0, 10.0)
    /\ ev_weight (delivered eff) = weight_ this'
    /\ (StronglySorted Rlt (map t_ (history_ (target_with [15.0] 0.5))) ->
        StronglySorted Rlt
          (map t_
             (get_history (target_with [15.0] 0.5)
                (10.0 - (1.0 - 0.0) + 0.0) (20.0 - (1.0 - 0.0) + 0.0)))).
Proof.
  apply (send_forward_update 1e-6
           {| base := base_scenario 1.0; weight_ := 1.0; Kplus_ := 1.0;
              t_lastspike_ := 10.0 |}
           (event_at 20.0) (target_with [15.0] 0.5) (cp_scenario 0.0)).
  - reflexivity.
  - unfold get_history, target_with, spike_at. simpl.
    decide_reals. simpl.
    constructor; [| constructor].
    unfold causal. simpl. lra.
Defined.

(** ** One correction, taken apart *)

Section AdjustFacts.

Variable stdp_eps : R.

(** The correction is a function of its assertion: when the missing spike
    passes it, the results are these. *)
Lemma adjust_weight_causal (this : stdp_pl_synapse_hom_ax_delay)
    (a : adjustentry.t) (missing_spike : R) (target : Node)
    (cp : STDPPLHomAxDelayCommonProperties) :
  let dendritic_delay := get_delay (base this) - axonal_delay_ cp in
  let t_spike := adjustentry.t_received_ a - axonal_delay_ cp + dendritic_delay in
  let minus_dt :=
    adjustentry.t_lastspike_ a + axonal_delay_ cp
    - (missing_spike + dendritic_delay) in
  let Kplus_corr :=
    (Kplus_ this - 1.0)
    / std.exp ((adjustentry.t_lastspike_ a - t_spike) / tau_plus_ cp) in
  let facilitated :=
    facilitate_ (adjustentry.old_weight_ a)
      (Kplus_corr * std.exp (minus_dt / tau_plus_ cp)) cp in
  let depressed :=
    depress_ facilitated
      (get_K_value target (t_spike + axonal_delay_ cp - dendritic_delay)) cp in
  causal stdp_eps cp dendritic_delay (adjustentry.t_lastspike_ a) missing_spike ->
  adjust_weight stdp_eps this a missing_spike target cp
  = Ok ({| base := base this; weight_ := depressed; Kplus_ := Kplus_ this;
           t_lastspike_ := t_lastspike_ this |},
        {| adjusted_entry := adjustentry.set_old_weight a facilitated;
           correction :=
             {| ev_weight := depressed - weight_ this;
                ev_delay_steps := get_delay_steps (base this);
                ev_rport := get_rport (base this);
                ev_stamp_ms := t_spike |} |}).
Proof.
  cbv zeta. intros Hc. unfold causal in Hc.
  unfold adjust_weight. cbv zeta. simpl.
  rewrite (assert_true _ Hc). reflexivity.
Qed.


Lemma adjust_weight_abort (this : stdp_pl_synapse_hom_ax_delay)
    (a : adjustentry.t) (missing_spike : R) (target : Node)
    (cp : STDPPLHomAxDelayCommonProperties) :
  ~ causal stdp_eps cp (get_delay (base this) - axonal_delay_ cp)
      (adjustentry.t_lastspike_ a) missing_spike ->
  adjust_weight stdp_eps this a missing_spike target cp = Abort AssertionFailed.
Proof.
  intros Hc. unfold causal in Hc.
  unfold adjust_weight. cbv zeta. simpl.
  rewrite (assert_false _ Hc). reflexivity.
Qed.

Lemma adjust_weight_Ok_causal (this : stdp_pl_synapse_hom_ax_delay)
    (a : adjustentry.t) (missing_spike : R) (target : Node)
    (cp : STDPPLHomAxDelayCommonProperties)
    (r : stdp_pl_synapse_hom_ax_delay * AdjustEffects) :
  adjust_weight stdp_eps this a missing_spike target cp = Ok r ->
  causal stdp_eps cp (get_delay (base this) - axonal_delay_ cp)
    (adjustentry.t_lastspike_ a) missing_spike.
Proof.
  intros H.
  destruct (decide (causal stdp_eps cp (get_delay (base this) - axonal_delay_ cp)
                      (adjustentry.t_lastspike_ a) missing_spike)) as [Hc | Hc];
    [exact Hc |].
  rewrite (adjust_weight_abort _ _ _ _ _ Hc) in H. discriminate.
Qed.

End AdjustFacts.

(** ** The correction against the full-information forward update *)





(** ** The steps of the correction *)

(** C3: a correction whose missing spike passes the causality assertion
    returns.  It facilitates once, starting from the [old_weight_] of the
    entry and not from the weight of the synapse, with the corrected trace
    [(Kplus_ - 1) / exp ((a.t_lastspike_ - t_spike) / tau_plus)], where
    [t_spike = a.t_received_ - axonal_delay + dendritic_delay]; it stores the
    facilitated weight in the entry; the weight of the synapse is that
    weight depressed; and the correction event carries the difference
    between the new weight and the weight on entry, stamped [t_spike], with
    the delay steps and the port of the connection. *)
Theorem adjust_weight_steps (stdp_eps : R) (this : stdp_pl_synapse_hom_ax_delay)
    (a : adjustentry.t) (missing_spike : R) (target : Node)
    (cp : STDPPLHomAxDelayCommonProperties) :
  causal stdp_eps cp (get_delay (base this) - axonal_delay_ cp)
    (adjustentry.t_lastspike_ a) missing_spike ->
  exists this' eff,
    adjust_weight stdp_eps this a missing_spike target cp = Ok (this', eff)
    /\ let ori_weight := weight_ this in
       let dendritic_delay := get_delay (base this) - axonal_delay_ cp in
       let t_spike := adjustentry.t_received_ a - axonal_delay_ cp + dendritic_delay in
       let trace_corr :=
         (Kplus_ this - 1.0)
         / std.exp ((adjustentry.t_lastspike_ a - t_spike) / tau_plus_ cp) in
       let minus_dt :=
         adjustentry.t_lastspike_ a + axonal_delay_ cp
         - (missing_spike + dendritic_delay) in
       adjustentry.old_weight_ (adjusted_entry eff)
       = adjustentry.old_weight_ a
         + lambda_ cp * std.pow (adjustentry.old_weight_ a) (mu_ cp)
           * (trace_corr * std.exp (minus_dt / tau_plus_ cp))
       /\ weight_ this'
          = depress_ (adjustentry.old_weight_ (adjusted_entry eff))
              (get_K_value target (t_spike + axonal_delay_ cp - dendritic_delay)) cp
       /\ ev_weight (correction eff) = weight_ this' - ori_weight
       /\ ev_stamp_ms (correction eff) = t_spike
       /\ ev_delay_steps (correction eff) = get_delay_steps (base this)
       /\ ev_rport (correction eff) = get_rport (base this).
Proof.
  intros Hc.
  do 2 eexists. split.
  - apply adjust_weight_causal. exact Hc.
  - simpl. unfold facilitate_. repeat split; reflexivity.
Qed.

Lemma adjust_weight_steps_witness :
  exists this' eff,
    adjust_weight 1e-6
      {| base := base_scenario 4.0; weight_ := 0.9; Kplus_ := 1.5;
         t_lastspike_ := 20.0 |}
      (adjustentry.mk 10.0 1.0 22.0 0 0 0) 21.0 (target_with [21.0] 0.7)
      (cp_scenario 3.0)
    = Ok (this', eff)
    /\ adjustentry.old_weight_ (adjusted_entry eff)
       = 1.0
         + 0.01 * std.pow 1.0 0.4
           * ((1.5 - 1.0) / std.exp ((10.0 - (22.0 - 3.0 + (4.0 - 3.0))) / 20.0)
              * std.exp ((10.0 + 3.0 - (21.0 + (4.0 - 3.0))) / 20.0))
    /\ weight_ this'
       = depress_ (adjustentry.old_weight_ (adjusted_entry eff)) 0.7 (cp_scenario 3.0)
    /\ ev_weight (correction eff) = weight_ this' - 0.9
    /\ ev_stamp_ms (correction eff) = 22.0 - 3.0 + (4.0 - 3.0)
    /\ ev_delay_steps (correction eff) = 10%Z
    /\ ev_rport (correction eff) = 0%Z.
Proof.
  apply (adjust_weight_steps 1e-6
           {| base := base_scenario 4.0; weight_ := 0.9; Kplus_ := 1.5;
              t_lastspike_ := 20.0 |}
           (adjustentry.mk 10.0 1.0 22.0 0 0 0) 21.0 (target_with [21.0] 0.7)
           (cp_scenario 3.0)).
  unfold causal. simpl. lra.
Defined.

(** C8: a correction that returns leaves the presynaptic trace, the time of
    the last presynaptic spike and the connection base of the synapse as
    they were, and changes no field of the entry other than [old_weight_]. *)
Theorem adjust_weight_frame (stdp_eps : R) (this this' : stdp_pl_synapse_hom_ax_delay)
    (a : adjustentry.t) (missing_spike : R) (target : Node)
    (cp : STDPPLHomAxDelayCommonProperties) (eff : AdjustEffects) :
  adjust_weight stdp_eps this a missing_spike target cp = Ok (this', eff) ->
  Kplus_ this' = Kplus_ this
  /\ t_lastspike_ this' = t_lastspike_ this
  /\ base this' = base this
  /\ adjustentry.t_lastspike_ (adjusted_entry eff) = adjustentry.t_lastspike_ a
  /\ adjustentry.t_received_ (adjusted_entry eff) = adjustentry.t_received_ a
  /\ adjustentry.tid_ (adjusted_entry eff) = adjustentry.tid_ a
  /\ adjustentry.syn_id_ (adjusted_entry eff) = adjustentry.syn_id_ a
  /\ adjustentry.lcid_ (adjusted_entry eff) = adjustentry.lcid_ a.
Proof.
  intros H.
  pose proof (adjust_weight_Ok_causal _ _ _ _ _ _ _ H) as Hc.
  rewrite (adjust_weight_causal _ _ _ _ _ _ Hc) in H.
  injection H as <- <-. simpl. repeat split; reflexivity.
Qed.

Lemma adjust_weight_frame_witness :
  exists this' eff,
    adjust_weight 1e-6
      {| base := base_scenario 4.0; weight_ := 0.9; Kplus_ := 1.5;
         t_lastspike_ := 20.0 |}
      (adjustentry.mk 10.0 1.0 22.0 1 2 3) 21.0 (target_with [21.0] 0.7)
      (cp_scenario 3.0)
    = Ok (this', eff)
    /\ Kplus_ this' = 1.5
    /\ t_lastspike_ this' = 20.0
    /\ base this' = base_scenario 4.0
    /\ adjustentry.t_lastspike_ (adjusted_entry eff) = 10.0
    /\ adjustentry.t_received_ (adjusted_entry eff) = 22.0
    /\ adjustentry.tid_ (adjusted_entry eff) = 1%Z
    /\ adjustentry.syn_id_ (adjusted_entry eff) = 2%Z
    /\ adjustentry.lcid_ (adjusted_entry eff) = 3%Z.
Proof.
  assert (Hc :
    causal 1e-6 (cp_scenario 3.0) (4.0 - 3.0) 10.0 21.0).
  { unfold causal. simpl. lra. }
  pose proof (adjust_weight_causal 1e-6
                {| base := base_scenario 4.0; weight_ := 0.9; Kplus_ := 1.5;
                   t_lastspike_ := 20.0 |}
                (adjustentry.mk 10.0 1.0 22.0 1 2 3) 21.0
                (target_with [21.0] 0.7) (cp_scenario 3.0) Hc) as Hrun.
  cbv zeta in Hrun.
  do 2 eexists. split; [exact Hrun |].
  exact (adjust_weight_frame _ _ _ _ _ _ _ _ Hrun).
Defined.

(** ** The weight stays non-negative *)




(** ** The causality assertions *)

(** A spike that lies in the queried window, but no more than [stdp_eps]
    above its lower end, fails the assertion of the forward update; a
    confirmed spike that close to the lower end fails the assertion of the
    correction. *)
Lemma causality_window_counterexample :
  get_history (target_with [9.0000005] 0.5) (10.0 - (1.0 - 0.0) + 0.0)
    (20.0 - (1.0 - 0.0) + 0.0)
  = [spike_at 9.0000005]
  /\ 10.0 - (1.0 - 0.0) + 0.0 < t_ (spike_at 9.0000005) <= 20.0 - (1.0 - 0.0) + 0.0
  /\ send 1e-6
       {| base := base_scenario 1.0; weight_ := 1.0; Kplus_ := 1.0;
          t_lastspike_ := 10.0 |}
       (event_at 20.0) (target_with [9.0000005] 0.5) (cp_scenario 0.0)
     = Abort AssertionFailed
  /\ adjust_weight 1e-6
       {| base := base_scenario 4.0; weight_ := 0.9; Kplus_ := 1.5;
          t_lastspike_ := 20.0 |}
       (adjustentry.mk 10.0 1.0 22.0 0 0 0) 12.0000005
       (target_with [12.0000005] 0.7) (cp_scenario 3.0)
     = Abort AssertionFailed.
Proof.
  assert (Hhist :
    get_history (target_with [9.0000005] 0.5) (10.0 - (1.0 - 0.0) + 0.0)
      (20.0 - (1.0 - 0.0) + 0.0)
    = [spike_at 9.0000005]).
  { unfold get_history, target_with. simpl. decide_reals. reflexivity. }
  split; [exact Hhist |].
  split; [simpl; lra |].
  split.
  - apply send_abort. cbv zeta. simpl.
    rewrite Hhist. constructor. unfold causal. simpl. lra.
  - apply adjust_weight_abort. unfold causal. simpl. lra.
Qed.

(** C5, as the code has it: each facilitation is preceded by the assertion
    [minus_dt < -stdp_eps], in the loop of the forward update and in the
    correction, and a spike that fails it aborts the run.  When every spike
    of the queried window and the confirmed spike lie more than [stdp_eps]
    above the lower end [t_lastspike - dendritic_delay + axonal_delay] of
    their window, both return. *)
Theorem causality_assertions (stdp_eps : R) (this : stdp_pl_synapse_hom_ax_delay)
    (e : Event) (target : Node) (cp : STDPPLHomAxDelayCommonProperties)
    (a : adjustentry.t) (missing_spike : R) :
  let dendritic_delay := get_delay (base this) - axonal_delay_ cp in
  let entries :=
    get_history target
      (t_lastspike_ this - dendritic_delay + axonal_delay_ cp)
      (get_stamp_ms e - dendritic_delay + axonal_delay_ cp) in
  (Forall
     (fun h => t_lastspike_ this - dendritic_delay + axonal_delay_ cp + stdp_eps < t_ h)
     entries ->
   exists r, send stdp_eps this e target cp = Ok r)
  /\ (Exists
        (fun h =>
           ~ t_lastspike_ this + axonal_delay_ cp - (t_ h + dendritic_delay)
             < -1.0 * stdp_eps)
        entries ->
      send stdp_eps this e target cp = Abort AssertionFailed)
  /\ (adjustentry.t_lastspike_ a - dendritic_delay + axonal_delay_ cp + stdp_eps
      < missing_spike ->
      exists r, adjust_weight stdp_eps this a missing_spike target cp = Ok r)
  /\ (~ adjustentry.t_lastspike_ a + axonal_delay_ cp
        - (missing_spike + dendritic_delay)
        < -1.0 * stdp_eps ->
      adjust_weight stdp_eps this a missing_spike target cp = Abort AssertionFailed).
Proof.
  cbv zeta. repeat split.
  - intros Hall. apply send_total. cbv zeta.
    eapply List.Forall_impl; [| exact Hall].
    intros h Hh. unfold causal. simpl in Hh. lra.
  - intros Hex. apply send_abort. cbv zeta. exact Hex.
  - intros Hm. eexists. apply adjust_weight_causal. unfold causal. lra.
  - intros Hm. apply adjust_weight_abort. exact Hm.
Qed.

Lemma causality_assertions_witness :
  (exists r,
     send 1e-6
       {| base := base_scenario 1.0; weight_ := 1.0; Kplus_ := 1.0;
          t_lastspike_ := 10.0 |}
       (event_at 20.0) (target_with [15.0] 0.5) (cp_scenario 0.0) = Ok r)
  /\ (exists r,
        adjust_weight 1e-6
          {| base := base_scenario 1.0; weight_ := 1.0; Kplus_ := 1.0;
             t_lastspike_ := 10.0 |}
          (adjustentry.mk 5.0 1.0 9.0 0 0 0) 8.0
          (target_with [15.0] 0.5) (cp_scenario 0.0) = Ok r).
Proof.
  pose proof (causality_assertions 1e-6
                {| base := base_scenario 1.0; weight_ := 1.0; Kplus_ := 1.0;
                   t_lastspike_ := 10.0 |}
                (event_at 20.0) (target_with [15.0] 0.5) (cp_scenario 0.0)
                (adjustentry.mk 5.0 1.0 9.0 0 0 0) 8.0) as H.
  cbv zeta in H. destruct H as (Hsend & _ & Hadj & _).
  split.
  - apply Hsend. unfold get_history, target_with. simpl.
    decide_reals. simpl. constructor; [simpl; lra | constructor].
  - apply Hadj. simpl. lra.
Defined.

(** ** Adjustment entries *)

Lemma send_train_no_entries (stdp_eps : R) (cp : STDPPLHomAxDelayCommonProperties)
    (train : list (Event * Node)) :
  forall this run,
    axonal_delay_ cp <= get_delay (base this) - axonal_delay_ cp ->
    send_train stdp_eps this train cp = Ok run ->
    synapses_to_check run = [].
Proof.
  induction train as [| [e target] rest IH]; intros this run Hd H; simpl in H.
  - injection H as <-. reflexivity.
  - apply bind_Ok in H as [[this' eff] [Hsend H]].
    apply bind_Ok in H as [rs [Hrest H]].
    injection H as <-. simpl in Hrest.
    apply send_inv in Hsend. cbv zeta in Hsend.
    destruct Hsend as (this1 & _ & Hb & _ & _ & _ & _ & Hchk).
    destruct (decide (axonal_delay_ cp > _)) as [Hgt | _]; [lra |].
    unfold synapses_to_check. simpl. rewrite Hchk.
    apply (IH this'); [rewrite Hb; exact Hd | exact Hrest].
Qed.

(** C6: a forward update that returns hands an entry to the target exactly
    when the axonal delay is greater than the dendritic delay; the entry
    holds the time of the last presynaptic spike before the update, the
    weight between the facilitation and the depression, and
    [t_spike + axonal_delay - dendritic_delay], with the routing data of the
    sender.  A spike train sent through a connection with a positive delay
    and an axonal delay of zero hands over no entry at all. *)
Theorem adjustment_entry_iff (stdp_eps : R) (cp : STDPPLHomAxDelayCommonProperties)
    (this : stdp_pl_synapse_hom_ax_delay) :
  (forall e target this' eff,
     send stdp_eps this e target cp = Ok (this', eff) ->
     let dendritic_delay := get_delay (base this) - axonal_delay_ cp in
     (axonal_delay_ cp > dendritic_delay <-> synapse_to_check eff <> None)
     /\ forall a,
          synapse_to_check eff = Some a ->
          exists this1,
            facilitation_loop stdp_eps cp dendritic_delay
              (get_history target
                 (t_lastspike_ this - dendritic_delay + axonal_delay_ cp)
                 (get_stamp_ms e - dendritic_delay + axonal_delay_ cp)) this
            = Ok this1
            /\ weight_ this'
               = depress_ (weight_ this1)
                   (get_K_value target
                      (get_stamp_ms e + axonal_delay_ cp - dendritic_delay)) cp
            /\ a = adjustentry.mk (t_lastspike_ this) (weight_ this1)
                     (get_stamp_ms e + axonal_delay_ cp - dendritic_delay)
                     (get_tid (get_sender_spike_data e))
                     (get_syn_id (get_sender_spike_data e))
                     (get_lcid (get_sender_spike_data e)))
  /\ (axonal_delay_ cp = 0 ->
      0 < get_delay (base this) ->
      forall train run,
        send_train stdp_eps this train cp = Ok run ->
        synapses_to_check run = []).
Proof.
  split.
  - intros e target this' eff H. cbv zeta.
    apply send_inv in H. cbv zeta in H.
    destruct H as (this1 & Hloop & _ & Hw & _ & _ & _ & Hchk).
    split.
    + rewrite Hchk.
      destruct (decide (axonal_delay_ cp > _)) as [Hgt | Hle].
      * split; [discriminate | intros _; exact Hgt].
      * split; [intros Hgt; contradiction | intros Hne; congruence].
    + intros a Ha. rewrite Ha in Hchk.
      destruct (decide (axonal_delay_ cp > _)); [| discriminate].
      injection Hchk as ->.
      exists this1. repeat split; [exact Hloop | exact Hw].
  - intros Hax Hd train run H.
    apply (send_train_no_entries stdp_eps cp train this); [lra | exact H].
Qed.

Lemma adjustment_entry_iff_witness :
  exists run,
    send_train 1e-6 (stdp_pl_synapse_hom_ax_delay_default (base_scenario 1.0))
      [(event_at 10.0, target_with [] 0.0); (event_at 20.0, target_with [15.0] 0.5)]
      (cp_scenario 0.0)
    = Ok run
    /\ synapses_to_check run = [].
Proof.
  assert (Hrun :
    exists run,
      send_train 1e-6 (stdp_pl_synapse_hom_ax_delay_default (base_scenario 1.0))
        [(event_at 10.0, target_with [] 0.0); (event_at 20.0, target_with [15.0] 0.5)]
        (cp_scenario 0.0)
      = Ok run).
  { unfold send_train, send, get_history, target_with. simpl.
    decide_reals. simpl. decide_reals. simpl. eexists. reflexivity. }
  destruct Hrun as [run Hrun]. exists run. split; [exact Hrun |].
  destruct (adjustment_entry_iff 1e-6 (cp_scenario 0.0)
              (stdp_pl_synapse_hom_ax_delay_default (base_scenario 1.0)))
    as [_ Htrain].
  apply (Htrain ltac:(simpl; lra) ltac:(simpl; lra) _ _ Hrun).
Defined.

(** ** Forward updates without postsynaptic spikes *)

Lemma depress_le (w kminus : R) (cp : STDPPLHomAxDelayCommonProperties) :
  0 <= lambda_ cp * alpha_ cp -> 0 <= w -> 0 <= kminus ->
  depress_ w kminus cp <= w.
Proof.
  intros Hla Hw Hk. unfold depress_. cbv zeta.
  assert (0 <= lambda_ cp * alpha_ cp * w * kminus).
  { apply Rmult_le_pos; [apply Rmult_le_pos |]; assumption. }
  destruct (decide (_ > 0.0)); lra.
Qed.

Lemma depress_lt_iff (w kminus : R) (cp : STDPPLHomAxDelayCommonProperties) :
  0 <= lambda_ cp * alpha_ cp -> 0 <= w -> 0 <= kminus ->
  depress_ w kminus cp < w <-> 0 < w /\ 0 < lambda_ cp * alpha_ cp * kminus.
Proof.
  intros Hla Hw Hk. unfold depress_. cbv zeta.
  replace (lambda_ cp * alpha_ cp * w * kminus)
    with (lambda_ cp * alpha_ cp * kminus * w) by ring.
  assert (Hc : 0 <= lambda_ cp * alpha_ cp * kminus).
  { apply Rmult_le_pos; assumption. }
  set (c := lambda_ cp * alpha_ cp * kminus) in *.
  pose proof (Rmult_le_pos c w Hc Hw) as Hcw.
  destruct (decide (w - c * w > 0.0)) as [Hpos | Hneg]; split.
  - intros Hlt. split; [lra |].
    destruct (Rle_lt_or_eq_dec 0 c Hc) as [Hc' | Hc0]; [exact Hc' |].
    rewrite <- Hc0 in Hlt. lra.
  - intros [Hw' Hc']. pose proof (Rmult_lt_0_compat c w Hc' Hw'). lra.
  - intros Hlt. split; [lra |].
    destruct (Rle_lt_or_eq_dec 0 c Hc) as [Hc' | Hc0]; [exact Hc' |].
    rewrite <- Hc0 in Hneg. lra.
  - intros [Hw' _]. lra.
Qed.

Lemma send_silent (stdp_eps : R) (this : stdp_pl_synapse_hom_ax_delay) (e : Event)
    (target : Node) (cp : STDPPLHomAxDelayCommonProperties) :
  let dendritic_delay := get_delay (base this) - axonal_delay_ cp in
  get_history target
    (t_lastspike_ this - dendritic_delay + axonal_delay_ cp)
    (get_stamp_ms e - dendritic_delay + axonal_delay_ cp) = [] ->
  exists this' eff,
    send stdp_eps this e target cp = Ok (this', eff)
    /\ base this' = base this
    /\ t_lastspike_ this' = get_stamp_ms e
    /\ weight_ this'
       = depress_ (weight_ this)
           (get_K_value target
              (get_stamp_ms e + axonal_delay_ cp - dendritic_delay)) cp.
Proof.
  cbv zeta. intros Hempty.
  unfold send. cbv zeta. rewrite Hempty. simpl.
  do 2 eexists. split; [reflexivity |]. simpl. repeat split; reflexivity.
Qed.

(** Two presynaptic spikes on a target that never fires: the trace of the
    target is zero, the depression takes nothing, and the weight stays at
    its initial value instead of decreasing. *)
Lemma pure_depression_counterexample :
  silent_windows 1.0 (cp_scenario 0.0) 0.0
    [(event_at 10.0, silent_target); (event_at 20.0, silent_target)]
  /\ exists run,
       send_train 1e-6 (stdp_pl_synapse_hom_ax_delay_default (base_scenario 1.0))
         [(event_at 10.0, silent_target); (event_at 20.0, silent_target)]
         (cp_scenario 0.0)
       = Ok run
       /\ weights run = [1.0; 1.0]
       /\ ~ Sorted Rgt (1.0 :: weights run).
Proof.
  split; [simpl; auto |].
  assert (Hd : depress_ 1.0 0.0 (cp_scenario 0.0) = 1.0).
  { unfold depress_. simpl. decide_reals. lra. }
  eexists. split; [| split].
  - unfold send_train, send, get_history, silent_target. simpl. reflexivity.
  - unfold weights. simpl. unfold get_K_value. simpl. rewrite !Hd. reflexivity.
  - unfold weights. simpl. unfold get_K_value. simpl. rewrite !Hd.
    intros Hs. inversion Hs as [| ? ? _ Hhd]; subst.
    inversion Hhd; subst. lra.
Qed.

Lemma send_train_silent (stdp_eps : R) (cp : STDPPLHomAxDelayCommonProperties)
    (train : list (Event * Node)) :
  0 <= lambda_ cp * alpha_ cp ->
  Forall (fun et => forall t, 0 <= get_K_value (snd et) t) train ->
  forall this,
    0 <= weight_ this ->
    silent_windows (get_delay (base this)) cp (t_lastspike_ this) train ->
    exists run,
      send_train stdp_eps this train cp = Ok run
      /\ weights run = depressions (get_delay (base this)) cp (weight_ this) train
      /\ Sorted Rge (weight_ this :: weights run)
      /\ Forall (Rle 0) (weights run).
Proof.
  intros Hla HK.
  induction train as [| [e target] rest IH]; intros this Hw Hsilent.
  - exists []. simpl. repeat split; constructor; constructor.
  - inversion HK as [| ? ? Hk HKrest]; subst. simpl in Hk.
    destruct Hsilent as [Hempty Hrest].
    destruct (send_silent stdp_eps this e target cp Hempty)
      as (this' & eff & Hsend & Hb & Ht & Hw').
    assert (Hw0 : 0 <= weight_ this') by (rewrite Hw'; apply depress_nonneg).
    assert (Hle : weight_ this' <= weight_ this).
    { rewrite Hw'. apply depress_le; [exact Hla | exact Hw | apply Hk]. }
    destruct (IH HKrest this' Hw0) as (rs & Hrun & Hws & Hsorted & Hpos).
    { rewrite Hb, Ht. exact Hrest. }
    exists ((this', eff) :: rs). simpl.
    rewrite Hsend. simpl. rewrite Hrun. simpl.
    split; [reflexivity |].
    split; [rewrite Hws, Hb, Hw'; reflexivity |].
    split.
    + constructor; [exact Hsorted | constructor; lra].
    + constructor; [exact Hw0 | exact Hpos].
Qed.

(** C9, as the code has it: over a train of forward updates whose windows
    hold no postsynaptic spike, with a non-negative product of learning rate
    and asymmetry, a non-negative postsynaptic trace and a non-negative
    initial weight, every update returns and is a depression alone; the
    weights never increase and never fall below zero.  One depression
    lowers the weight strictly exactly when the weight is positive and the
    product of learning rate, asymmetry and postsynaptic trace is positive. *)
Theorem pure_depression (stdp_eps : R) (cp : STDPPLHomAxDelayCommonProperties)
    (this : stdp_pl_synapse_hom_ax_delay) (train : list (Event * Node)) :
  0 <= lambda_ cp * alpha_ cp ->
  0 <= weight_ this ->
  Forall (fun et => forall t, 0 <= get_K_value (snd et) t) train ->
  silent_windows (get_delay (base this)) cp (t_lastspike_ this) train ->
  (exists run,
     send_train stdp_eps this train cp = Ok run
     /\ weights run = depressions (get_delay (base this)) cp (weight_ this) train
     /\ Sorted Rge (weight_ this :: weights run)
     /\ Forall (Rle 0) (weights run))
  /\ forall w kminus,
       0 <= w -> 0 <= kminus ->
       (depress_ w kminus cp < w <-> 0 < w /\ 0 < lambda_ cp * alpha_ cp * kminus).
Proof.
  intros Hla Hw HK Hsilent. split.
  - apply send_train_silent; assumption.
  - intros w kminus Hw' Hk. apply depress_lt_iff; assumption.
Qed.

Lemma pure_depression_witness :
  (exists run,
     send_train 1e-6 (stdp_pl_synapse_hom_ax_delay_default (base_scenario 1.0))
       [(event_at 10.0, target_with [] 0.5); (event_at 20.0, target_with [] 0.25)]
       (cp_scenario 0.0)
     = Ok run
     /\ weights run
        = depressions 1.0 (cp_scenario 0.0) 1.0
            [(event_at 10.0, target_with [] 0.5); (event_at 20.0, target_with [] 0.25)]
     /\ Sorted Rge (1.0 :: weights run)
     /\ Forall (Rle 0) (weights run))
  /\ forall w kminus,
       0 <= w -> 0 <= kminus ->
       (depress_ w kminus (cp_scenario 0.0) < w
        <-> 0 < w /\ 0 < 0.01 * 1.05 * kminus).
Proof.
  apply (pure_depression 1e-6 (cp_scenario 0.0)
           (stdp_pl_synapse_hom_ax_delay_default (base_scenario 1.0))
           [(event_at 10.0, target_with [] 0.5); (event_at 20.0, target_with [] 0.25)]).
  - simpl. lra.
  - simpl. lra.
  - constructor; [| constructor; [| constructor]];
      intros t; unfold get_K_value; simpl; lra.
  - simpl. auto.
Defined.

(** ** The status of a connection *)

(** C10: [set_status] of a connection takes whatever doubles the dictionary
    holds for the weight and for [Kplus], negative ones included: when the
    connection base accepts the dictionary the two fields hold exactly these
    values, and the only errors are those of the connection base.
    [get_status] adds [weight], [Kplus] and [size_of] to what the connection
    base reports and nothing else, and the time of the last presynaptic
    spike has no part in the result. *)
Theorem status_surface (sizeof_this : Z)
    (base_get_status : ConnectionBase -> gmap string Token -> gmap string Token)
    (base_set_status : gmap string Token -> ConnectionBase -> result ConnectionBase)
    (this : stdp_pl_synapse_hom_ax_delay) (d : gmap string Token) (x y : R) :
  d !! names.weight = Some (DoubleDatum x) ->
  d !! names.Kplus = Some (DoubleDatum y) ->
  (forall b,
     base_set_status d (base this) = Ok b ->
     set_status base_set_status this d
     = Ok {| base := b; weight_ := x; Kplus_ := y;
             t_lastspike_ := t_lastspike_ this |})
  /\ (forall err,
        set_status base_set_status this d = Abort err
        <-> base_set_status d (base this) = Abort err)
  /\ (forall d0 : gmap string Token,
        let s := get_status sizeof_this base_get_status this d0 in
        s !! names.weight = Some (DoubleDatum (weight_ this))
        /\ s !! names.Kplus = Some (DoubleDatum (Kplus_ this))
        /\ s !! names.size_of = Some (IntegerDatum sizeof_this)
        /\ (forall n : string,
              n <> names.weight -> n <> names.Kplus -> n <> names.size_of ->
              s !! n = base_get_status (base this) d0 !! n)
        /\ forall t : R,
             get_status sizeof_this base_get_status
               {| base := base this; weight_ := weight_ this;
                  Kplus_ := Kplus_ this; t_lastspike_ := t |} d0
             = s).
Proof.
  intros Hw Hk. split; [| split].
  - intros b Hb. unfold set_status. rewrite Hb. simpl.
    unfold updateValue_double. rewrite Hw, Hk. reflexivity.
  - intros err. unfold set_status.
    destruct (base_set_status d (base this)) as [b | err']; simpl.
    + split; discriminate.
    + split; intros H; injection H as ->; reflexivity.
  - intros d0. cbv zeta. unfold get_status, def_double, def_long. cbv zeta.
    unfold names.weight, names.Kplus, names.size_of.
    repeat split.
    + rewrite lookup_insert_ne by discriminate.
      rewrite lookup_insert_ne by discriminate.
      apply lookup_insert_eq.
    + rewrite lookup_insert_ne by discriminate.
      apply lookup_insert_eq.
    + apply lookup_insert_eq.
    + intros n H1 H2 H3.
      rewrite !lookup_insert_ne by congruence. reflexivity.
Qed.

Lemma status_surface_witness :
  set_status base_set_status_example
    (stdp_pl_synapse_hom_ax_delay_default (base_scenario 1.0))
    (<[names.weight := DoubleDatum (-5.0)]>
       (<[names.Kplus := DoubleDatum (-2.0)]> ∅))
  = Ok {| base := base_scenario 1.0; weight_ := -5.0; Kplus_ := -2.0;
          t_lastspike_ := 0.0 |}.
Proof.
  destruct (status_surface 32 base_get_status_example base_set_status_example
              (stdp_pl_synapse_hom_ax_delay_default (base_scenario 1.0))
              (<[names.weight := DoubleDatum (-5.0)]>
                 (<[names.Kplus := DoubleDatum (-2.0)]> ∅))
              (-5.0) (-2.0)) as [Hset _].
  - apply lookup_insert_eq.
  - rewrite lookup_insert_ne by discriminate. apply lookup_insert_eq.
  - apply Hset. reflexivity.
Defined.

(** ** The configuration of the axonal delay *)

(** The forward update does not look at the sign of the dendritic delay:
    with an axonal delay of 3 ms on a connection with a delay of 1 ms it
    returns. *)
Lemma send_negative_dendritic_delay :
  exists r,
    send 1e-6 (stdp_pl_synapse_hom_ax_delay_default (base_scenario 1.0))
      (event_at 10.0) silent_target (cp_scenario 3.0) = Ok r
    /\ get_delay (base_scenario 1.0) - axonal_delay_ (cp_scenario 3.0) < 0.
Proof.
  eexists. split.
  - unfold send, get_history, silent_target. simpl. reflexivity.
  - simpl. lra.
Qed.

(** C7: the configuration of the common properties returns a configuration
    error when the axonal delay it would store exceeds the total delay of
    the connection, and stores nothing; when it returns properties, these
    hold the configured axonal delay unchanged, the dendritic delay is not
    negative, and the reciprocal of [tau_plus] is cached. *)
Theorem axonal_delay_rejected (cp : STDPPLHomAxDelayCommonProperties)
    (d : gmap string Token) (total_delay : R) :
  let axonal_delay := updateValue_double d names.axonal_delay (axonal_delay_ cp) in
  (axonal_delay > total_delay ->
   common_set_status cp d total_delay = Abort BadProperty)
  /\ (~ axonal_delay > total_delay ->
      exists cp',
        common_set_status cp d total_delay = Ok cp'
        /\ axonal_delay_ cp' = axonal_delay
        /\ 0 <= total_delay - axonal_delay_ cp'
        /\ tau_plus_inv_ cp' = 1.0 / tau_plus_ cp').
Proof.
  cbv zeta. unfold common_set_status. cbv zeta.
  destruct (decide (_ > total_delay)) as [Hgt | Hle]; split.
  - intros _. reflexivity.
  - intros Hn. contradiction.
  - intros Hgt. contradiction.
  - intros _. eexists. split; [reflexivity |]. simpl.
    split; [reflexivity | split; [lra | reflexivity]].
Qed.

Lemma axonal_delay_rejected_witness :
  common_set_status (cp_scenario 0.0)
    (<[names.axonal_delay := DoubleDatum 3.0]> ∅) 1.0
  = Abort BadProperty.
Proof.
  destruct (axonal_delay_rejected (cp_scenario 0.0)
              (<[names.axonal_delay := DoubleDatum 3.0]> ∅) 1.0) as [Hreject _].
  apply Hreject.
  unfold updateValue_double. rewrite lookup_insert_eq. lra.
Defined.

(** ** The scenario of two presynaptic spikes around one postsynaptic spike

    Without axonal delay, on a connection with a delay of 1 ms, presynaptic
    spikes at 10 ms and 20 ms and a postsynaptic spike at 15 ms: the first
    update depresses only, the second facilitates once with the spike at
    15 ms and depresses, and no entry is handed to the target. *)
Example scenario_two_presynaptic_spikes :
  get_history (target_with [15.0] 0.0) (0.0 - (1.0 - 0.0) + 0.0)
    (10.0 - (1.0 - 0.0) + 0.0) = []
  /\ get_history (target_with [15.0] 0.5) (10.0 - (1.0 - 0.0) + 0.0)
       (20.0 - (1.0 - 0.0) + 0.0) = [spike_at 15.0]
  /\ exists run,
       send_train 1e-6 (stdp_pl_synapse_hom_ax_delay_default (base_scenario 1.0))
         [(event_at 10.0, target_with [15.0] 0.0);
          (event_at 20.0, target_with [15.0] 0.5)]
         (cp_scenario 0.0)
       = Ok run
       /\ weights run
          = [depress_ 1.0 0.0 (cp_scenario 0.0);
             depress_
               (facilitate_ (depress_ 1.0 0.0 (cp_scenario 0.0))
                  ((0.0 * std.exp ((0.0 - 10.0) * (1.0 / 20.0)) + 1.0)
                   * std.exp ((10.0 + 0.0 - (15.0 + (1.0 - 0.0))) * (1.0 / 20.0)))
                  (cp_scenario 0.0))
               0.5 (cp_scenario 0.0)]
       /\ synapses_to_check run = [].
Proof.
  assert (H1 :
    get_history (target_with [15.0] 0.0) (0.0 - (1.0 - 0.0) + 0.0)
      (10.0 - (1.0 - 0.0) + 0.0) = []).
  { unfold get_history, target_with. simpl. decide_reals. reflexivity. }
  assert (H2 :
    get_history (target_with [15.0] 0.5) (10.0 - (1.0 - 0.0) + 0.0)
      (20.0 - (1.0 - 0.0) + 0.0) = [spike_at 15.0]).
  { unfold get_history, target_with. simpl. decide_reals. reflexivity. }
  split; [exact H1 |]. split; [exact H2 |].
  clear H1 H2.
  unfold send_train, send, get_history, target_with. simpl.
  repeat (progress decide_reals; simpl).
  eexists. split; [reflexivity |]. split; reflexivity.
Qed.

(** * Further properties of the plasticity rule *)

(** ** The facilitation loop as a fold *)

Lemma facilitation_loop_fold (stdp_eps : R) (cp : STDPPLHomAxDelayCommonProperties)
    (dendritic_delay : R) (entries : list histentry) :
  forall this,
    Forall (fun h => causal stdp_eps cp dendritic_delay (t_lastspike_ this) (t_ h))
           entries ->
    facilitation_loop stdp_eps cp dendritic_delay entries this
    = Ok (set_weight this
            (fold_left
               (fun w h =>
                  facilitate_ w
                    (Kplus_ this
                     * std.exp ((t_lastspike_ this + axonal_delay_ cp
                                 - (t_ h + dendritic_delay)) * tau_plus_inv_ cp))
                    cp)
               entries (weight_ this))).
Proof.
  induction entries as [| start rest IH]; intros this Hall; simpl.
  - destruct this. reflexivity.
  - inversion Hall as [| ? ? Hstart Hrest]; subst.
    unfold causal in Hstart. rewrite (assert_true _ Hstart). simpl.
    rewrite IH; [reflexivity | exact Hrest].
Qed.

(** ** Special cases of the weight dependence *)

(** The exponent 0 gives the additive rule and the exponent 1, on a
    non-negative weight, the multiplicative rule. *)
Theorem facilitate_additive_multiplicative (cp : STDPPLHomAxDelayCommonProperties)
    (w kplus : R) :
  (mu_ cp = 0 -> facilitate_ w kplus cp = w + lambda_ cp * kplus)
  /\ (mu_ cp = 1 -> 0 <= w -> facilitate_ w kplus cp = w * (1 + lambda_ cp * kplus)).
Proof.
  unfold facilitate_, std.pow. split.
  - intros ->.
    destruct (decide (0 < w)) as [Hw | Hw].
    + rewrite Rpower_O by exact Hw. ring.
    + destruct (decide (0 = 0)) as [_ | Hn]; [lra | contradiction].
  - intros -> Hw.
    destruct (decide (0 < w)) as [Hpos | Hnpos].
    + rewrite Rpower_1 by exact Hpos. ring.
    + destruct (decide (1 = 0)) as [H10 | _]; [lra |].
      destruct (decide (w = 0)) as [-> | Hw0]; lra.
Qed.

Lemma facilitate_additive_multiplicative_witness :
  facilitate_ 2.0 0.5
    {| tau_plus_ := 20.0; tau_plus_inv_ := 1.0 / 20.0; lambda_ := 0.01;
       alpha_ := 1.05; mu_ := 1; axonal_delay_ := 0.0 |}
  = 2.0 * (1 + 0.01 * 0.5).
Proof.
  apply (facilitate_additive_multiplicative
           {| tau_plus_ := 20.0; tau_plus_inv_ := 1.0 / 20.0; lambda_ := 0.01;
              alpha_ := 1.05; mu_ := 1; axonal_delay_ := 0.0 |} 2.0 0.5).
  - reflexivity.
  - lra.
Defined.

(** On a non-negative weight the depression is a scaling: the weight is
    multiplied by [1 - lambda * alpha * K_minus], or by zero when that
    factor is negative. *)
Theorem depress_scaling (cp : STDPPLHomAxDelayCommonProperties) (w kminus : R) :
  0 <= w ->
  depress_ w kminus cp = w * Rmax 0 (1 - lambda_ cp * alpha_ cp * kminus).
Proof.
  intros Hw. unfold depress_. cbv zeta.
  replace (w - lambda_ cp * alpha_ cp * w * kminus)
    with (w * (1 - lambda_ cp * alpha_ cp * kminus)) by ring.
  set (f := 1 - lambda_ cp * alpha_ cp * kminus).
  destruct (Rle_lt_dec f 0) as [Hf | Hf].
  - rewrite Rmax_left by exact Hf.
    assert (w * f <= 0).
    { replace 0 with (w * 0) by ring. apply Rmult_le_compat_l; assumption. }
    destruct (decide (w * f > 0.0)); lra.
  - rewrite Rmax_right by lra.
    destruct (decide (w * f > 0.0)) as [_ | Hn]; [reflexivity |].
    destruct (Rle_lt_or_eq_dec 0 w Hw) as [Hpos | <-]; [| lra].
    pose proof (Rmult_lt_0_compat w f Hpos Hf). lra.
Qed.

(** ** Invariants of the loop and of a train *)

Lemma facilitation_loop_invariant (stdp_eps : R)
    (cp : STDPPLHomAxDelayCommonProperties) (dendritic_delay : R)
    (P : R -> Prop) (entries : list histentry) :
  forall this this1,
    (forall w x, P w -> P (facilitate_ w (Kplus_ this * std.exp x) cp)) ->
    P (weight_ this) ->
    facilitation_loop stdp_eps cp dendritic_delay entries this = Ok this1 ->
    P (weight_ this1).
Proof.
  induction entries as [| start rest IH]; intros this this1 Hstep HP H; simpl in H.
  - injection H as <-. exact HP.
  - apply bind_Ok in H as [[] [_ H]].
    apply IH in H; [exact H | exact Hstep | simpl; apply Hstep; exact HP].
Qed.

Lemma send_train_invariant (stdp_eps : R) (cp : STDPPLHomAxDelayCommonProperties)
    (I : stdp_pl_synapse_hom_ax_delay -> Prop) :
  (forall this e target this' eff,
     I this -> send stdp_eps this e target cp = Ok (this', eff) -> I this') ->
  forall train this run,
    I this ->
    send_train stdp_eps this train cp = Ok run ->
    Forall (fun r => I (fst r)) run.
Proof.
  intros Hstep.
  induction train as [| [e target] rest IH]; intros this run HI H; simpl in H.
  - injection H as <-. constructor.
  - apply bind_Ok in H as [[this' eff] [Hsend H]].
    apply bind_Ok in H as [rs [Hrest H]].
    injection H as <-. simpl in Hrest.
    pose proof (Hstep _ _ _ _ _ HI Hsend) as HI'.
    constructor; [exact HI' | exact (IH _ _ HI' Hrest)].
Qed.

(** ** A synapse without presynaptic trace *)

(** A forward update on a synapse whose presynaptic trace is zero, as it is
    after construction, and whose weight is not negative, with an exponent
    that is not negative, facilitates by nothing whatever spikes the window
    holds: the weight is depressed only, and the trace becomes one. *)
Theorem send_without_trace (stdp_eps : R) (this this' : stdp_pl_synapse_hom_ax_delay)
    (e : Event) (target : Node) (cp : STDPPLHomAxDelayCommonProperties)
    (eff : SendEffects) :
  Kplus_ this = 0 ->
  0 <= weight_ this ->
  0 <= mu_ cp ->
  send stdp_eps this e target cp = Ok (this', eff) ->
  weight_ this'
  = depress_ (weight_ this)
      (get_K_value target
         (get_stamp_ms e + axonal_delay_ cp
          - (get_delay (base this) - axonal_delay_ cp))) cp
  /\ Kplus_ this' = 1.
Proof.
  intros HK _ _ H.
  apply send_inv in H. cbv zeta in H.
  destruct H as (this1 & Hloop & _ & Hw & Hk & _).
  apply (facilitation_loop_invariant _ _ _ (fun w => w = weight_ this)) in Hloop.
  - rewrite Hw, Hk, Hloop, HK. split; [reflexivity |].
    rewrite Rmult_0_l. lra.
  - intros w x ->. unfold facilitate_. rewrite HK. ring.
  - reflexivity.
Qed.

Lemma send_without_trace_witness :
  exists this' eff,
    send 1e-6 (stdp_pl_synapse_hom_ax_delay_default (base_scenario 1.0))
      (event_at 10.0) (target_with [5.0] 0.5) (cp_scenario 0.0)
    = Ok (this', eff)
    /\ weight_ this' = depress_ 1.0 0.5 (cp_scenario 0.0)
    /\ Kplus_ this' = 1.
Proof.
  assert (Hrun :
    exists r,
      send 1e-6 (stdp_pl_synapse_hom_ax_delay_default (base_scenario 1.0))
        (event_at 10.0) (target_with [5.0] 0.5) (cp_scenario 0.0) = Ok r).
  { unfold send, get_history, target_with. simpl.
    repeat (progress decide_reals; simpl). eexists. reflexivity. }
  destruct Hrun as [[this' eff] Hrun].
  exists this', eff. split; [exact Hrun |].
  apply (send_without_trace 1e-6
           (stdp_pl_synapse_hom_ax_delay_default (base_scenario 1.0)) this'
           (event_at 10.0) (target_with [5.0] 0.5) (cp_scenario 0.0) eff);
    [simpl; lra | simpl; lra | simpl; lra | exact Hrun].
Defined.

(** ** An exhausted weight *)



(** ** A learning rate of zero *)

(** With a learning rate of zero the synapse is static: a non-negative
    weight is the same after every forward update of a train. *)
Theorem static_without_learning (stdp_eps : R) (cp : STDPPLHomAxDelayCommonProperties)
    (this : stdp_pl_synapse_hom_ax_delay) (train : list (Event * Node))
    (run : list (stdp_pl_synapse_hom_ax_delay * SendEffects)) :
  lambda_ cp = 0 ->
  0 <= weight_ this ->
  send_train stdp_eps this train cp = Ok run ->
  Forall (fun w => w = weight_ this) (weights run).
Proof.
  intros Hl Hw Hrun. unfold weights.
  apply List.Forall_map.
  apply (send_train_invariant stdp_eps cp (fun s => weight_ s = weight_ this))
    with (train := train) (this := this); [| reflexivity | exact Hrun].
  clear - Hl Hw. intros s e target s' eff Hs H.
  apply send_inv in H. cbv zeta in H.
  destruct H as (s1 & Hloop & _ & Hw' & _).
  apply (facilitation_loop_invariant _ _ _ (fun w => w = weight_ this)) in Hloop.
  - rewrite Hw', Hloop. unfold depress_. cbv zeta. rewrite Hl.
    destruct (decide (_ > 0.0)); lra.
  - intros w x ->. unfold facilitate_. rewrite Hl. ring.
  - exact Hs.
Qed.

Lemma static_without_learning_witness :
  exists run,
    send_train 1e-6
      {| base := base_scenario 1.0; weight_ := 0.7; Kplus_ := 1.0;
         t_lastspike_ := 10.0 |}
      [(event_at 20.0, target_with [15.0] 0.5)]
      {| tau_plus_ := 20.0; tau_plus_inv_ := 1.0 / 20.0; lambda_ := 0;
         alpha_ := 1.05; mu_ := 0.4; axonal_delay_ := 0.0 |}
    = Ok run
    /\ Forall (fun w => w = 0.7) (weights run).
Proof.
  assert (Hrun :
    exists run,
      send_train 1e-6
        {| base := base_scenario 1.0; weight_ := 0.7; Kplus_ := 1.0;
           t_lastspike_ := 10.0 |}
        [(event_at 20.0, target_with [15.0] 0.5)]
        {| tau_plus_ := 20.0; tau_plus_inv_ := 1.0 / 20.0; lambda_ := 0;
           alpha_ := 1.05; mu_ := 0.4; axonal_delay_ := 0.0 |}
      = Ok run).
  { unfold send_train, send, get_history, target_with. simpl.
    repeat (progress decide_reals; simpl). eexists. reflexivity. }
  destruct Hrun as [run Hrun]. exists run. split; [exact Hrun |].
  apply (static_without_learning 1e-6
           {| tau_plus_ := 20.0; tau_plus_inv_ := 1.0 / 20.0; lambda_ := 0;
              alpha_ := 1.05; mu_ := 0.4; axonal_delay_ := 0.0 |}
           {| base := base_scenario 1.0; weight_ := 0.7; Kplus_ := 1.0;
              t_lastspike_ := 10.0 |}
           [(event_at 20.0, target_with [15.0] 0.5)] run);
    [reflexivity | simpl; lra | exact Hrun].
Defined.

(** ** The presynaptic trace *)



Lemma last_cons {A : Type} (l : list A) :
  forall a d, List.last (a :: l) d = List.last l a.
Proof.
  induction l as [| b l IH]; intros a d.
  - reflexivity.
  - change (List.last (a :: b :: l) d) with (List.last (b :: l) d).
    rewrite (IH b d), (IH b a). reflexivity.
Qed.

(** The trace at the end of a train of forward updates is the initial trace
    decayed over the whole train plus, for every presynaptic spike of the
    train, one unit decayed from that spike to the last; it depends on the
    spike times alone, not on weights or on the target.  The time of the
    last spike is the stamp of the last event. *)
Theorem trace_closed_form (stdp_eps : R) (cp : STDPPLHomAxDelayCommonProperties)
    (train : list (Event * Node)) :
  forall this run,
    send_train stdp_eps this train cp = Ok run ->
    let t_n := t_lastspike_ (final_state this run) in
    t_n = List.last (map (fun et => get_stamp_ms (fst et)) train) (t_lastspike_ this)
    /\ Kplus_ (final_state this run)
       = Kplus_ this * std.exp ((t_lastspike_ this - t_n) * tau_plus_inv_ cp)
         + sum_list
             (map (fun et => std.exp ((get_stamp_ms (fst et) - t_n) * tau_plus_inv_ cp))
                  train).
Proof.
  induction train as [| [e target] rest IH]; intros this run H; simpl in H.
  - injection H as <-. cbv zeta. unfold final_state. simpl.
    split; [reflexivity |].
    replace ((t_lastspike_ this - t_lastspike_ this) * tau_plus_inv_ cp) with 0 by ring.
    unfold std.exp. rewrite exp_0. ring.
  - apply bind_Ok in H as [[this' eff] [Hsend H]].
    apply bind_Ok in H as [rs [Hrest H]].
    injection H as <-. simpl in Hrest.
    apply send_inv in Hsend. cbv zeta in Hsend.
    destruct Hsend as (_ & _ & _ & _ & Hk & Ht & _).
    specialize (IH this' rs Hrest). cbv zeta in IH.
    destruct IH as [IHt IHk].
    assert (Hfinal : final_state this ((this', eff) :: rs) = final_state this' rs).
    { unfold final_state. simpl map. apply last_cons. }
    cbv zeta. rewrite Hfinal.
    split.
    + rewrite IHt, Ht. simpl map. rewrite last_cons. reflexivity.
    + rewrite IHk, Hk, Ht. simpl.
      set (t_n := t_lastspike_ (final_state this' rs)).
      replace ((t_lastspike_ this - t_n) * tau_plus_inv_ cp)
        with ((t_lastspike_ this - get_stamp_ms e) * tau_plus_inv_ cp
              + (get_stamp_ms e - t_n) * tau_plus_inv_ cp) by ring.
      unfold std.exp. rewrite exp_plus. unfold sum_list. simpl.
      replace 1.0 with 1 by lra. ring.
Qed.

Lemma trace_closed_form_witness :
  exists run,
    send_train 1e-6 (stdp_pl_synapse_hom_ax_delay_default (base_scenario 1.0))
      [(event_at 10.0, target_with [] 0.0); (event_at 20.0, target_with [15.0] 0.5)]
      (cp_scenario 0.0)
    = Ok run
    /\ t_lastspike_
         (final_state (stdp_pl_synapse_hom_ax_delay_default (base_scenario 1.0)) run)
       = 20.0
    /\ Kplus_
         (final_state (stdp_pl_synapse_hom_ax_delay_default (base_scenario 1.0)) run)
       = 0.0
         * std.exp
             ((0.0
               - t_lastspike_
                   (final_state
                      (stdp_pl_synapse_hom_ax_delay_default (base_scenario 1.0)) run))
              * (1.0 / 20.0))
         + sum_list
             (map
                (fun et =>
                   std.exp
                     ((get_stamp_ms (fst et)
                       - t_lastspike_
                           (final_state
                              (stdp_pl_synapse_hom_ax_delay_default (base_scenario 1.0))
                              run))
                      * (1.0 / 20.0)))
                [(event_at 10.0, target_with [] 0.0);
                 (event_at 20.0, target_with [15.0] 0.5)]).
Proof.
  assert (Hrun :
    exists run,
      send_train 1e-6 (stdp_pl_synapse_hom_ax_delay_default (base_scenario 1.0))
        [(event_at 10.0, target_with [] 0.0);
         (event_at 20.0, target_with [15.0] 0.5)]
        (cp_scenario 0.0)
      = Ok run).
  { unfold send_train, send, get_history, target_with. simpl.
    repeat (progress decide_reals; simpl). eexists. reflexivity. }
  destruct Hrun as [run Hrun]. exists run. split; [exact Hrun |].
  exact (trace_closed_form 1e-6 (cp_scenario 0.0) _ _ _ Hrun).
Defined.

(** ** Runs of corrections *)


Lemma set_old_weight_twice (a : adjustentry.t) (w w' : R) :
  adjustentry.set_old_weight (adjustentry.set_old_weight a w) w'
  = adjustentry.set_old_weight a w'.
Proof.
  reflexivity.
Qed.






(** ** What a correction keeps of the state it finds *)

(** The weight a correction leaves does not depend on the weight it finds:
    on a synapse whose weight has been changed in the meantime the
    correction returns the same weight and the same entry, and only the
    delta of its event differs, by the change of the weight. *)
Theorem adjust_weight_discards_weight (stdp_eps : R)
    (this this' : stdp_pl_synapse_hom_ax_delay) (a : adjustentry.t)
    (missing_spike : R) (target : Node) (cp : STDPPLHomAxDelayCommonProperties)
    (eff : AdjustEffects) (w : R) :
  adjust_weight stdp_eps this a missing_spike target cp = Ok (this', eff) ->
  exists eff',
    adjust_weight stdp_eps (set_weight this w) a missing_spike target cp
    = Ok (this', eff')
    /\ adjusted_entry eff' = adjusted_entry eff
    /\ ev_weight (correction eff') = ev_weight (correction eff) + (weight_ this - w).
Proof.
  intros H.
  pose proof (adjust_weight_Ok_causal _ _ _ _ _ _ _ H) as Hc.
  rewrite (adjust_weight_causal _ _ _ _ _ _ Hc) in H.
  injection H as <- <-.
  eexists. split.
  - apply (adjust_weight_causal stdp_eps (set_weight this w)). exact Hc.
  - simpl. split; [reflexivity | lra].
Qed.

Lemma adjust_weight_discards_weight_witness :
  exists this' eff eff',
    adjust_weight 1e-6
      {| base := base_scenario 4.0; weight_ := 0.9; Kplus_ := 1.5;
         t_lastspike_ := 20.0 |}
      (adjustentry.mk 10.0 1.0 22.0 0 0 0) 21.0 (target_with [21.0] 0.7)
      (cp_scenario 3.0)
    = Ok (this', eff)
    /\ adjust_weight 1e-6
         {| base := base_scenario 4.0; weight_ := 0.3; Kplus_ := 1.5;
            t_lastspike_ := 20.0 |}
         (adjustentry.mk 10.0 1.0 22.0 0 0 0) 21.0 (target_with [21.0] 0.7)
         (cp_scenario 3.0)
       = Ok (this', eff')
    /\ adjusted_entry eff' = adjusted_entry eff
    /\ ev_weight (correction eff') = ev_weight (correction eff) + (0.9 - 0.3).
Proof.
  assert (Hc : causal 1e-6 (cp_scenario 3.0) (4.0 - 3.0) 10.0 21.0).
  { unfold causal. simpl. lra. }
  pose proof (adjust_weight_causal 1e-6
                {| base := base_scenario 4.0; weight_ := 0.9; Kplus_ := 1.5;
                   t_lastspike_ := 20.0 |}
                (adjustentry.mk 10.0 1.0 22.0 0 0 0) 21.0
                (target_with [21.0] 0.7) (cp_scenario 3.0) Hc) as Hrun.
  cbv zeta in Hrun.
  destruct (adjust_weight_discards_weight _ _ _ _ _ _ _ _ 0.3 Hrun)
    as (eff' & Hrun' & Hentry & Hdelta).
  do 2 eexists. exists eff'.
  split; [exact Hrun |]. split; [exact Hrun' |]. split; [exact Hentry | exact Hdelta].
Defined.

(** The correction of an entry that a forward update has enqueued is
    addressed like the event of that update: its event has the time stamp,
    the delay steps and the port of the event first sent, and its depression
    samples the postsynaptic trace at the time stored in the entry. *)
Theorem correction_event_matches (stdp_eps : R)
    (this this1 this2 : stdp_pl_synapse_hom_ax_delay) (e : Event)
    (target target' : Node) (cp : STDPPLHomAxDelayCommonProperties)
    (eff : SendEffects) (a : adjustentry.t) (missing_spike : R)
    (eff2 : AdjustEffects) :
  send stdp_eps this e target cp = Ok (this1, eff) ->
  synapse_to_check eff = Some a ->
  adjust_weight stdp_eps this1 a missing_spike target' cp = Ok (this2, eff2) ->
  ev_stamp_ms (correction eff2) = ev_stamp_ms (delivered eff)
  /\ ev_stamp_ms (correction eff2) = get_stamp_ms e
  /\ ev_delay_steps (correction eff2) = ev_delay_steps (delivered eff)
  /\ ev_rport (correction eff2) = ev_rport (delivered eff)
  /\ weight_ this2
     = depress_ (adjustentry.old_weight_ (adjusted_entry eff2))
         (get_K_value target' (adjustentry.t_received_ a)) cp.
Proof.
  intros Hsend Hentry Hadj.
  apply send_inv in Hsend. cbv zeta in Hsend.
  destruct Hsend as (thisf & _ & Hb & _ & _ & _ & Hev & Hchk).
  rewrite Hentry in Hchk.
  destruct (decide (axonal_delay_ cp > _)); [| discriminate].
  injection Hchk as ->.
  pose proof (adjust_weight_Ok_causal _ _ _ _ _ _ _ Hadj) as Hc.
  rewrite (adjust_weight_causal _ _ _ _ _ _ Hc) in Hadj.
  injection Hadj as <- <-. rewrite Hev, Hb. simpl.
  split; [lra |]. split; [lra |]. split; [reflexivity |]. split; [reflexivity |].
  do 2 f_equal. lra.
Qed.

Lemma correction_event_matches_witness :
  exists this2 eff2,
    adjust_weight 1e-6
      {| base := base_scenario 4.0;
         weight_ := depress_ 1.0 0.5 (cp_scenario 3.0);
         Kplus_ := 1.0 * std.exp ((10.0 - 20.0) * (1.0 / 20.0)) + 1.0;
         t_lastspike_ := 20.0 |}
      (adjustentry.mk 10.0 1.0 (20.0 + 3.0 - (4.0 - 3.0)) 0 0 0)
      21.0 (target_with [21.0] 0.7) (cp_scenario 3.0)
    = Ok (this2, eff2)
    /\ ev_stamp_ms (correction eff2) = 20.0
    /\ ev_delay_steps (correction eff2) = 10%Z
    /\ ev_rport (correction eff2) = 0%Z.
Proof.
  assert (Hsend :
    send 1e-6
      {| base := base_scenario 4.0; weight_ := 1.0; Kplus_ := 1.0;
         t_lastspike_ := 10.0 |}
      (event_at 20.0) (target_with [] 0.5) (cp_scenario 3.0)
    = Ok ({| base := base_scenario 4.0;
             weight_ := depress_ 1.0 0.5 (cp_scenario 3.0);
             Kplus_ := 1.0 * std.exp ((10.0 - 20.0) * (1.0 / 20.0)) + 1.0;
             t_lastspike_ := 20.0 |},
          {| delivered :=
               {| ev_weight := depress_ 1.0 0.5 (cp_scenario 3.0);
                  ev_delay_steps := 10; ev_rport := 0; ev_stamp_ms := 20.0 |};
             synapse_to_check :=
               Some (adjustentry.mk 10.0 1.0 (20.0 + 3.0 - (4.0 - 3.0)) 0 0 0) |})).
  { unfold send, get_history, target_with. simpl. decide_reals. reflexivity. }
  assert (Hc : causal 1e-6 (cp_scenario 3.0) (4.0 - 3.0) 10.0 21.0).
  { unfold causal. simpl. lra. }
  pose proof (adjust_weight_causal 1e-6
                {| base := base_scenario 4.0;
                   weight_ := depress_ 1.0 0.5 (cp_scenario 3.0);
                   Kplus_ := 1.0 * std.exp ((10.0 - 20.0) * (1.0 / 20.0)) + 1.0;
                   t_lastspike_ := 20.0 |}
                (adjustentry.mk 10.0 1.0 (20.0 + 3.0 - (4.0 - 3.0)) 0 0 0) 21.0
                (target_with [21.0] 0.7) (cp_scenario 3.0) Hc) as Hadj.
  cbv zeta in Hadj.
  destruct (correction_event_matches _ _ _ _ _ _ _ _ _ _ _ _ Hsend eq_refl Hadj)
    as (_ & Hstamp & Hsteps & Hport & _).
  do 2 eexists. split; [exact Hadj |].
  split; [exact Hstamp |]. split; [exact Hsteps | exact Hport].
Defined.

(** ** The weights of a silent train in closed form *)

(** Over a train of forward updates whose windows hold no postsynaptic
    spike, every update returns, and a non-negative weight ends as the
    initial weight times the product, over the updates, of
    [1 - lambda * alpha * K_minus] or of zero where that factor is
    negative. *)
Theorem silent_train_product (stdp_eps : R) (cp : STDPPLHomAxDelayCommonProperties)
    (train : list (Event * Node)) :
  forall this,
    0 <= weight_ this ->
    silent_windows (get_delay (base this)) cp (t_lastspike_ this) train ->
    exists run,
      send_train stdp_eps this train cp = Ok run
      /\ weight_ (final_state this run)
         = weight_ this
           * prod_list
               (map
                  (fun et =>
                     Rmax 0
                       (1 - lambda_ cp * alpha_ cp
                            * get_K_value (snd et)
                                (get_stamp_ms (fst et) + axonal_delay_ cp
                                 - (get_delay (base this) - axonal_delay_ cp))))
                  train).
Proof.
  induction train as [| [e target] rest IH]; intros this Hw Hsilent.
  - exists []. split; [reflexivity |].
    unfold final_state, prod_list. simpl. ring.
  - destruct Hsilent as [Hempty Hrest].
    destruct (send_silent stdp_eps this e target cp Hempty)
      as (this' & eff & Hsend & Hb & Ht & Hw').
    assert (Hw0 : 0 <= weight_ this') by (rewrite Hw'; apply depress_nonneg).
    destruct (IH this' Hw0) as (rs & Hrun & Hfinal).
    { rewrite Hb, Ht. exact Hrest. }
    exists ((this', eff) :: rs). simpl.
    rewrite Hsend. simpl. rewrite Hrun. simpl.
    split; [reflexivity |].
    unfold final_state in *. simpl map. rewrite last_cons, Hfinal, Hw', Hb.
    rewrite (depress_scaling cp _ _ Hw). unfold prod_list. simpl. ring.
Qed.

Lemma silent_train_product_witness :
  exists run,
    send_train 1e-6 (stdp_pl_synapse_hom_ax_delay_default (base_scenario 1.0))
      [(event_at 10.0, target_with [] 0.5); (event_at 20.0, target_with [] 0.25)]
      (cp_scenario 0.0)
    = Ok run
    /\ weight_ (final_state (stdp_pl_synapse_hom_ax_delay_default (base_scenario 1.0)) run)
       = 1.0
         * prod_list
             (map
                (fun et =>
                   Rmax 0
                     (1 - 0.01 * 1.05
                          * get_K_value (snd et)
                              (get_stamp_ms (fst et) + 0.0 - (1.0 - 0.0))))
                [(event_at 10.0, target_with [] 0.5);
                 (event_at 20.0, target_with [] 0.25)]).
Proof.
  apply (silent_train_product 1e-6 (cp_scenario 0.0)
           [(event_at 10.0, target_with [] 0.5); (event_at 20.0, target_with [] 0.25)]
           (stdp_pl_synapse_hom_ax_delay_default (base_scenario 1.0))).
  - simpl. lra.
  - simpl. auto.
Defined.

(** ** More on the status of a connection *)

(** The status read from one connection and set on another transfers the
    weight and the presynaptic trace, whatever the connection base has
    written under other names, and leaves the time of the last presynaptic
    spike of the receiving connection as it was. *)
Theorem status_round_trip (sizeof_this : Z)
    (base_get_status : ConnectionBase -> gmap string Token -> gmap string Token)
    (base_set_status : gmap string Token -> ConnectionBase -> result ConnectionBase)
    (this other : stdp_pl_synapse_hom_ax_delay) (d0 : gmap string Token)
    (b : ConnectionBase) :
  base_set_status (get_status sizeof_this base_get_status this d0) (base other) = Ok b ->
  set_status base_set_status other (get_status sizeof_this base_get_status this d0)
  = Ok {| base := b; weight_ := weight_ this; Kplus_ := Kplus_ this;
          t_lastspike_ := t_lastspike_ other |}.
Proof.
  intros Hb. unfold set_status. rewrite Hb. simpl.
  unfold updateValue_double, get_status, def_double, def_long. cbv zeta.
  unfold names.weight, names.Kplus, names.size_of.
  rewrite (lookup_insert_ne _ "size_of" "weight") by discriminate.
  rewrite (lookup_insert_ne _ "Kplus" "weight") by discriminate.
  rewrite lookup_insert_eq.
  rewrite (lookup_insert_ne _ "size_of" "Kplus") by discriminate.
  rewrite lookup_insert_eq.
  reflexivity.
Qed.

Lemma status_round_trip_witness :
  set_status base_set_status_example
    {| base := base_scenario 1.0; weight_ := 1.0; Kplus_ := 0.0; t_lastspike_ := 7.0 |}
    (get_status 32 base_get_status_example
       {| base := base_scenario 4.0; weight_ := 0.3; Kplus_ := 1.5;
          t_lastspike_ := 20.0 |} ∅)
  = Ok {| base := base_scenario 1.0; weight_ := 0.3; Kplus_ := 1.5;
          t_lastspike_ := 7.0 |}.
Proof.
  apply (status_round_trip 32 base_get_status_example base_set_status_example
           {| base := base_scenario 4.0; weight_ := 0.3; Kplus_ := 1.5;
              t_lastspike_ := 20.0 |}
           {| base := base_scenario 1.0; weight_ := 1.0; Kplus_ := 0.0;
              t_lastspike_ := 7.0 |} ∅ (base_scenario 1.0)).
  reflexivity.
Defined.

(** [set_status] leaves the weight as it is when the dictionary has no
    weight, the presynaptic trace as it is when the dictionary has no
    [Kplus], and the time of the last presynaptic spike as it is whatever
    the dictionary holds. *)
Theorem set_status_missing_keys
    (base_set_status : gmap string Token -> ConnectionBase -> result ConnectionBase)
    (this this' : stdp_pl_synapse_hom_ax_delay) (d : gmap string Token) :
  set_status base_set_status this d = Ok this' ->
  (d !! names.weight = None -> weight_ this' = weight_ this)
  /\ (d !! names.Kplus = None -> Kplus_ this' = Kplus_ this)
  /\ t_lastspike_ this' = t_lastspike_ this
  /\ base_set_status d (base this) = Ok (base this').
Proof.
  unfold set_status. intros H.
  apply bind_Ok in H as [b [Hb H]].
  injection H as <-. simpl. unfold updateValue_double.
  repeat split.
  - intros ->. reflexivity.
  - intros ->. reflexivity.
  - exact Hb.
Qed.

Lemma set_status_missing_keys_witness :
  exists this',
    set_status base_set_status_example
      {| base := base_scenario 1.0; weight_ := 0.3; Kplus_ := 1.5;
         t_lastspike_ := 7.0 |}
      (<[names.Kplus := DoubleDatum 2.0]> ∅)
    = Ok this'
    /\ weight_ this' = 0.3
    /\ t_lastspike_ this' = 7.0.
Proof.
  eexists. split; [reflexivity |].
  destruct (set_status_missing_keys base_set_status_example
              {| base := base_scenario 1.0; weight_ := 0.3; Kplus_ := 1.5;
                 t_lastspike_ := 7.0 |}
              _ (<[names.Kplus := DoubleDatum 2.0]> ∅) eq_refl)
    as (Hw & _ & Ht & _).
  split; [| exact Ht].
  apply Hw. apply lookup_insert_None. split; [apply lookup_empty | discriminate].
Defined.

(** ** Registration with the target *)

(** [check_connection] registers with the total delay of the connection,
    from the time of the last presynaptic spike minus that delay, and only
    when the check of the connection base has passed.  That time is not
    later than the lower end of the window of the next forward update
    exactly when the axonal delay is not negative. *)
Theorem check_connection_registration
    (this : stdp_pl_synapse_hom_ax_delay) (check_connection_ : result unit)
    (cp : STDPPLHomAxDelayCommonProperties) (t_first_read delay : R) :
  check_connection this check_connection_ = Ok (t_first_read, delay) ->
  check_connection_ = Ok tt
  /\ delay = get_delay (base this)
  /\ t_first_read = t_lastspike_ this - get_delay (base this)
  /\ (t_first_read
      <= t_lastspike_ this - (get_delay (base this) - axonal_delay_ cp)
         + axonal_delay_ cp
      <-> 0 <= axonal_delay_ cp).
Proof.
  unfold check_connection. intros H.
  apply bind_Ok in H as [[] [Hcheck H]].
  injection H as <- <-.
  split; [exact Hcheck |]. split; [reflexivity |]. split; [reflexivity |].
  split; intros; lra.
Qed.

Lemma check_connection_registration_witness :
  check_connection (stdp_pl_synapse_hom_ax_delay_default (base_scenario 4.0)) (Ok tt)
  = Ok (0.0 - 4.0, 4.0)
  /\ (0.0 - 4.0 <= 0.0 - (4.0 - 3.0) + 3.0 <-> 0 <= 3.0).
Proof.
  split; [reflexivity |].
  destruct (check_connection_registration
              (stdp_pl_synapse_hom_ax_delay_default (base_scenario 4.0)) (Ok tt)
              (cp_scenario 3.0) (0.0 - 4.0) 4.0 eq_refl) as (_ & _ & _ & H).
  exact H.
Defined.

(** ** The order of weights *)

Lemma pow_monotone (x y mu : R) :
  0 <= mu -> 0 <= x <= y -> std.pow x mu <= std.pow y mu.
Proof.
  intros Hmu [Hx Hxy]. unfold std.pow.
  destruct (decide (0 < x)) as [Hpos | Hnpos].
  - destruct (decide (0 < y)) as [_ | Hn]; [| lra].
    apply Rle_Rpower_l; [exact Hmu | lra].
  - assert (x = 0) as -> by lra.
    destruct (decide (mu = 0)) as [-> | Hmu0].
    + destruct (decide (0 < y)) as [Hy | _]; [| lra].
      rewrite Rpower_O by exact Hy. lra.
    + destruct (decide (0 = 0)) as [_ | Hn]; [| contradiction].
      destruct (decide (0 < y)) as [Hy | Hny].
      * left. unfold Rpower. pose proof (exp_pos (mu * ln y)). lra.
      * destruct (decide (y = 0)) as [_ | Hy0]; lra.
Qed.

Lemma facilitate_monotone (cp : STDPPLHomAxDelayCommonProperties) (w1 w2 kplus : R) :
  0 <= lambda_ cp -> 0 <= mu_ cp -> 0 <= kplus ->
  0 <= w1 <= w2 ->
  0 <= facilitate_ w1 kplus cp <= facilitate_ w2 kplus cp.
Proof.
  intros Hl Hmu Hk [Hw1 Hw12].
  pose proof (facilitate_ge w1 kplus cp Hl Hmu Hw1 Hk) as Hge.
  split; [lra |].
  unfold facilitate_.
  pose proof (pow_monotone w1 w2 (mu_ cp) Hmu (conj Hw1 Hw12)) as Hp.
  assert (lambda_ cp * std.pow w1 (mu_ cp) * kplus
          <= lambda_ cp * std.pow w2 (mu_ cp) * kplus).
  { apply Rmult_le_compat_r; [exact Hk |].
    apply Rmult_le_compat_l; [exact Hl | exact Hp]. }
  lra.
Qed.

Lemma depress_monotone (cp : STDPPLHomAxDelayCommonProperties) (w1 w2 kminus : R) :
  0 <= w1 <= w2 ->
  depress_ w1 kminus cp <= depress_ w2 kminus cp.
Proof.
  intros [Hw1 Hw12].
  rewrite !depress_scaling by lra.
  apply Rmult_le_compat_r; [apply Rmax_l | exact Hw12].
Qed.

Lemma send_monotone (stdp_eps : R) (cp : STDPPLHomAxDelayCommonProperties)
    (this this' : stdp_pl_synapse_hom_ax_delay) (e : Event) (target : Node)
    (eff : SendEffects) (w : R) :
  0 <= lambda_ cp -> 0 <= mu_ cp -> 0 <= Kplus_ this ->
  0 <= weight_ this <= w ->
  send stdp_eps this e target cp = Ok (this', eff) ->
  exists w' eff2,
    send stdp_eps (set_weight this w) e target cp = Ok (set_weight this' w', eff2)
    /\ 0 <= weight_ this' <= w'
    /\ 0 <= Kplus_ this'.
Proof.
  intros Hl Hmu Hk Hw H.
  apply send_inv in H. cbv zeta in H.
  destruct H as (this1 & Hloop & Hb & Hw' & Hk' & Ht & _).
  pose proof (facilitation_loop_causal _ _ _ _ _ _ Hloop) as Hc.
  rewrite (facilitation_loop_fold _ _ _ _ _ Hc) in Hloop.
  injection Hloop as <-. simpl in Hw'.
  unfold send. cbv zeta.
  change (base (set_weight this w)) with (base this).
  change (t_lastspike_ (set_weight this w)) with (t_lastspike_ this).
  rewrite (facilitation_loop_fold stdp_eps cp _ _ (set_weight this w) Hc). simpl.
  do 2 eexists. split.
  - unfold set_weight. rewrite Hb, Hk', Ht. simpl. reflexivity.
  - split.
    + rewrite Hw'. split; [apply depress_nonneg |].
      apply depress_monotone.
      clear Hw' Hc.
      revert Hw. generalize (weight_ this) as w1. revert w.
      induction (get_history target _ _) as [| h rest IH]; intros w w1 Hw; simpl.
      * exact Hw.
      * apply IH. apply facilitate_monotone; try assumption.
        apply Rmult_le_pos; [exact Hk | left; apply exp_pos].
    + rewrite Hk'.
      assert (0 <= Kplus_ this * std.exp ((t_lastspike_ this - get_stamp_ms e)
                                          * tau_plus_inv_ cp)).
      { apply Rmult_le_pos; [exact Hk | left; apply exp_pos]. }
      lra.
Qed.

(** With a non-negative learning rate, exponent and trace, the order of
    two non-negative weights is kept by every forward update of a train:
    the same train sent through the same synapse with a larger weight
    returns too, and yields at every update a weight that is at least as
    large. *)
Theorem send_train_monotone (stdp_eps : R) (cp : STDPPLHomAxDelayCommonProperties)
    (train : list (Event * Node)) :
  0 <= lambda_ cp -> 0 <= mu_ cp ->
  forall this w run,
    0 <= Kplus_ this ->
    0 <= weight_ this <= w ->
    send_train stdp_eps this train cp = Ok run ->
    exists run2,
      send_train stdp_eps (set_weight this w) train cp = Ok run2
      /\ Forall2 Rle (weights run) (weights run2).
Proof.
  intros Hl Hmu.
  induction train as [| [e target] rest IH]; intros this w run Hk Hw H; simpl in H.
  - injection H as <-. exists []. split; [reflexivity | constructor].
  - apply bind_Ok in H as [[this' eff] [Hsend H]].
    apply bind_Ok in H as [rs [Hrest H]].
    injection H as <-. simpl in Hrest.
    destruct (send_monotone _ _ _ _ _ _ _ w Hl Hmu Hk Hw Hsend)
      as (w' & eff2 & Hsend2 & Hw' & Hk').
    destruct (IH this' w' rs Hk' Hw' Hrest) as (rs2 & Hrest2 & Hall).
    exists ((set_weight this' w', eff2) :: rs2).
    simpl. rewrite Hsend2. simpl. rewrite Hrest2. simpl.
    split; [reflexivity |].
    constructor; [simpl; lra | exact Hall].
Qed.

Lemma send_train_monotone_witness :
  exists run run2,
    send_train 1e-6
      {| base := base_scenario 1.0; weight_ := 0.5; Kplus_ := 1.0;
         t_lastspike_ := 10.0 |}
      [(event_at 20.0, target_with [15.0] 0.5)] (cp_scenario 0.0)
    = Ok run
    /\ send_train 1e-6
         {| base := base_scenario 1.0; weight_ := 0.8; Kplus_ := 1.0;
            t_lastspike_ := 10.0 |}
         [(event_at 20.0, target_with [15.0] 0.5)] (cp_scenario 0.0)
       = Ok run2
    /\ Forall2 Rle (weights run) (weights run2).
Proof.
  assert (Hrun :
    exists run,
      send_train 1e-6
        {| base := base_scenario 1.0; weight_ := 0.5; Kplus_ := 1.0;
           t_lastspike_ := 10.0 |}
        [(event_at 20.0, target_with [15.0] 0.5)] (cp_scenario 0.0)
      = Ok run).
  { unfold send_train, send, get_history, target_with. simpl.
    repeat (progress decide_reals; simpl). eexists. reflexivity. }
  destruct Hrun as [run Hrun]. exists run.
  destruct (send_train_monotone 1e-6 (cp_scenario 0.0)
              [(event_at 20.0, target_with [15.0] 0.5)]
              ltac:(simpl; lra) ltac:(simpl; lra)
              {| base := base_scenario 1.0; weight_ := 0.5; Kplus_ := 1.0;
                 t_lastspike_ := 10.0 |}
              0.8 run ltac:(simpl; lra) ltac:(simpl; lra) Hrun)
    as (run2 & Hrun2 & Hle).
  exists run2. split; [exact Hrun |]. split; [exact Hrun2 | exact Hle].
Defined.

(** ** The windows of consecutive forward updates *)




(** ** A correction that comes after a later forward update *)


